(** * Block acceptor and catch-up control of the casper node

    A shallow embedding of
    - [node/src/components/blocks_accumulator/block_acceptor.rs]
      ([BlockGossipAcceptor]) and
    - [node/src/reactor/main_reactor/control.rs]
      ([MainReactor::crank], [MainReactor::catch_up_instructions]).

    Collaborators that live outside these files (signature verification,
    block validation, the validator-weight classifier, storage, the block
    accumulator's sync instruction, the network) are parameters of the
    model or fields of an environment record. *)

From Stdlib Require Import NArith Arith Lia List Bool String Sorting.Sorted.
Import ListNotations.
Open Scope string_scope.

(** ** Shared types (casper_types / crate::types) *)

Definition BlockHash := N.
Definition EraId := N.
Definition PublicKey := N.
Definition Timestamp := N.   (* milliseconds *)
Definition TimeDiff := N.    (* milliseconds *)
Definition NodeId := N.

Record BlockHeader := mkBlockHeader {
  header_era_id : EraId;
  header_height : N;
  header_next_block_era_id : EraId
}.

(** [Block] carries its hash; [Block::hash()] reads it. *)
Record Block := mkBlock {
  block_hash_of : BlockHash;
  block_header : BlockHeader
}.

Definition block_era_id (b : Block) : EraId := header_era_id (block_header b).
Definition block_height (b : Block) : N := header_height (block_header b).

Record BlockAdded := mkBlockAdded {
  block : Block;
  proofs : list N
}.

Record FinalitySignature := mkFinalitySignature {
  fs_block_hash : BlockHash;
  fs_era_id : EraId;
  fs_public_key : PublicKey;
  fs_signature : N
}.

Record EraValidatorWeights := mkEraValidatorWeights {
  weights_era_id : EraId;
  validator_weights : list (PublicKey * N)
}.

Inductive SignatureWeight := Insufficient | Weak | Sufficient.

Definition signature_weight_eqb (a b : SignatureWeight) : bool :=
  match a, b with
  | Insufficient, Insufficient | Weak, Weak | Sufficient, Sufficient => true
  | _, _ => false
  end.

(** [blocks_accumulator::Error]; validation errors carry no payload here. *)
Inductive Error :=
| InvalidBlockAdded
| InvalidFinalitySignature
| WrongEraWeights (block_era validator_weights_era : EraId)
| FinalitySignatureWithWrongEra (finality_signature : FinalitySignature)
    (correct_era : EraId).

Inductive Result (T E : Type) :=
| Ok (t : T)
| Err (e : E).
Arguments Ok {T E} t.
Arguments Err {T E} e.

(** ** BTreeMap<PublicKey, FinalitySignature> as a key-sorted association list *)

Definition SigMap := list (PublicKey * FinalitySignature).

Fixpoint map_insert (k : PublicKey) (v : FinalitySignature) (m : SigMap) : SigMap :=
  match m with
  | [] => [(k, v)]
  | (k', v') :: m' =>
      match N.compare k k' with
      | Lt => (k, v) :: m
      | Eq => (k, v) :: m'
      | Gt => (k', v') :: map_insert k v m'
      end
  end.

Definition map_retain (f : PublicKey -> FinalitySignature -> bool) (m : SigMap) : SigMap :=
  filter (fun kv => f (fst kv) (snd kv)) m.

Definition map_keys (m : SigMap) : list PublicKey := map fst m.

Fixpoint map_get (k : PublicKey) (m : SigMap) : option FinalitySignature :=
  match m with
  | [] => None
  | (k', v) :: m' => if N.eqb k k' then Some v else map_get k m'
  end.

(** ** [utils::Latch<bool>] *)

(** Modelled from the spec: [utils::Latch] (not among the source files),
    "monotone boolean: once set to true, never resets. [set(true)] returns
    whether the transition happened". Returns the new value and whether the
    call changed it. *)
Definition latch_set (latched : bool) (v : bool) : bool * bool :=
  if latched then (true, false) else (v, v).

(** ** [BlockGossipAcceptor] *)

Record BlockGossipAcceptor := mkAcceptor {
  block_hash : BlockHash;
  era_id : EraId;
  block_added : option BlockAdded;
  signatures : SigMap;
  can_execute_latch : bool
}.

Definition set_signatures (a : BlockGossipAcceptor) (m : SigMap) :=
  mkAcceptor (block_hash a) (era_id a) (block_added a) m (can_execute_latch a).
Definition set_block_added (a : BlockGossipAcceptor) (b : option BlockAdded) :=
  mkAcceptor (block_hash a) (era_id a) b (signatures a) (can_execute_latch a).
Definition set_latch (a : BlockGossipAcceptor) (l : bool) :=
  mkAcceptor (block_hash a) (era_id a) (block_added a) (signatures a) l.

(** [block], [has_block_added], [block_era_and_height], [block_height]. *)
Definition acceptor_block (a : BlockGossipAcceptor) : option Block :=
  option_map block (block_added a).


Definition block_era_and_height (a : BlockGossipAcceptor) : option (EraId * N) :=
  option_map (fun ba => (era_id a, block_height (block ba))) (block_added a).

Definition acceptor_block_height (a : BlockGossipAcceptor) : option N :=
  option_map (fun ba => block_height (block ba)) (block_added a).

Section Acceptor.

(** [BlockAdded::validate], [FinalitySignature::is_verified] and
    [EraValidatorWeights::has_sufficient_weight] are defined outside the
    source files; the acceptor is modelled for every choice of them. *)
Context (validate : BlockAdded -> bool).
Context (is_verified : FinalitySignature -> bool).
Context (has_sufficient_weight : EraValidatorWeights -> list PublicKey -> SignatureWeight).

Definition new_from_block_added (ba : BlockAdded) : Result BlockGossipAcceptor Error :=
  if negb (validate ba) then Err InvalidBlockAdded
  else Ok (mkAcceptor (block_hash_of (block ba)) (block_era_id (block ba))
             (Some ba) [] false).

Definition new_from_finality_signature (fs : FinalitySignature)
    (w : option EraValidatorWeights) : Result BlockGossipAcceptor Error :=
  if negb (is_verified fs) then Err InvalidFinalitySignature
  else
    let weights_ok :=
      match w with
      | Some weights =>
          if negb (N.eqb (weights_era_id weights) (fs_era_id fs))
          then Some (WrongEraWeights (fs_era_id fs) (weights_era_id weights))
          else None
      | None => None
      end in
    match weights_ok with
    | Some e => Err e
    | None =>
        Ok (mkAcceptor (fs_block_hash fs) (fs_era_id fs) None
              (map_insert (fs_public_key fs) fs []) false)
    end.

(** [can_execute(&mut self, ..) -> bool]: the getter may set the latch. *)
Definition can_execute (a : BlockGossipAcceptor) (w : option EraValidatorWeights)
    : BlockGossipAcceptor * bool :=
  if can_execute_latch a then (a, true)
  else
    match block_added a with
    | None => (a, false)
    | Some _ =>
        match w with
        | None => (a, false)
        | Some weights =>
            if signature_weight_eqb Sufficient
                 (has_sufficient_weight weights (map_keys (signatures a)))
            then
              let (l, _updated) := latch_set (can_execute_latch a) true in
              let a' := set_latch a l in
              (a', can_execute_latch a')
            else (a, can_execute_latch a)
        end
    end.

Definition register_signature (a : BlockGossipAcceptor) (fs : FinalitySignature)
    (w : option EraValidatorWeights) : BlockGossipAcceptor * Result bool Error :=
  let wrong_era :=
    match block_added a with
    | Some ba =>
        if negb (N.eqb (block_era_id (block ba)) (fs_era_id fs))
        then Some (block_era_id (block ba))
        else None
    | None => None
    end in
  match wrong_era with
  | Some correct_era => (a, Err (FinalitySignatureWithWrongEra fs correct_era))
  | None =>
      let (a1, could_execute) := can_execute a w in
      let a2 := set_signatures a1 (map_insert (fs_public_key fs) fs (signatures a1)) in
      let (a3, can_execute_now) := can_execute a2 w in
      (a3, Ok (can_execute_now && negb could_execute))
  end.

Definition register_block (a : BlockGossipAcceptor) (ba : BlockAdded)
    (w : option EraValidatorWeights) : BlockGossipAcceptor * Result bool Error :=
  match block_added a with
  | Some _ => (a, Ok false)
  | None =>
      if negb (validate ba) then (a, Err InvalidBlockAdded)
      else
        let a0 := set_signatures a
          (map_retain (fun _ fs => N.eqb (fs_era_id fs) (block_era_id (block ba)))
             (signatures a)) in
        let (a1, could_execute) := can_execute a0 w in
        let a2 := set_block_added a1 (Some ba) in
        let (a3, can_execute_now) := can_execute a2 w in
        (a3, Ok (can_execute_now && negb could_execute))
  end.

(** Operations on one acceptor. *)
Inductive AcceptorOp :=
| OpRegisterSignature (fs : FinalitySignature) (w : option EraValidatorWeights)
| OpRegisterBlock (ba : BlockAdded) (w : option EraValidatorWeights)
| OpCanExecute (w : option EraValidatorWeights).

Inductive OpOutput :=
| OutResult (r : Result bool Error)
| OutBool (b : bool).

Definition apply_op (a : BlockGossipAcceptor) (op : AcceptorOp)
    : BlockGossipAcceptor * OpOutput :=
  match op with
  | OpRegisterSignature fs w =>
      let (a', r) := register_signature a fs w in (a', OutResult r)
  | OpRegisterBlock ba w =>
      let (a', r) := register_block a ba w in (a', OutResult r)
  | OpCanExecute w =>
      let (a', b) := can_execute a w in (a', OutBool b)
  end.

Fixpoint run_ops (a : BlockGossipAcceptor) (ops : list AcceptorOp)
    : BlockGossipAcceptor * list OpOutput :=
  match ops with
  | [] => (a, [])
  | op :: ops' =>
      let (a1, o) := apply_op a op in
      let (a2, os) := run_ops a1 ops' in
      (a2, o :: os)
  end.

(** States reachable from a constructor by any operations. *)
Inductive reachable : BlockGossipAcceptor -> Prop :=
| reachable_block_added ba a :
    new_from_block_added ba = Ok a -> reachable a
| reachable_finality_signature fs w a :
    new_from_finality_signature fs w = Ok a -> reachable a
| reachable_op a op :
    reachable a -> reachable (fst (apply_op a op)).

(** A call routed to this acceptor: a block is handed only to the acceptor
    kept under that block's hash. *)
Definition routed (a : BlockGossipAcceptor) (op : AcceptorOp) : Prop :=
  match op with
  | OpRegisterBlock ba _ => block_hash_of (block ba) = block_hash a
  | _ => True
  end.

Inductive reachable_routed : BlockGossipAcceptor -> Prop :=
| routed_block_added ba a :
    new_from_block_added ba = Ok a -> reachable_routed a
| routed_finality_signature fs w a :
    new_from_finality_signature fs w = Ok a -> reachable_routed a
| routed_op a op :
    reachable_routed a -> routed a op -> reachable_routed (fst (apply_op a op)).

End Acceptor.

Definition is_ok_true (o : OpOutput) : bool :=
  match o with
  | OutResult (Ok true) => true
  | _ => false
  end.

Definition count_ok_true (os : list OpOutput) : nat :=
  List.length (filter is_ok_true os).

Definition sig_map_era_pure (era : EraId) (m : SigMap) : Prop :=
  Forall (fun kv => fs_era_id (snd kv) = era) m.

(** Modelled from the spec: [EraValidatorWeights::has_sufficient_weight]
    (not among the source files): "sums weights of the supplied keys
    (ignoring unknowns), returns [Sufficient] when sum >= ceil(2 total/3) + 1,
    [Weak] when >= ceil(total/3) + 1, else [Insufficient]". *)
Fixpoint weight_of (k : PublicKey) (ws : list (PublicKey * N)) : N :=
  match ws with
  | [] => 0%N
  | (k', w) :: ws' => if N.eqb k k' then w else weight_of k ws'
  end.

Definition spec_has_sufficient_weight (weights : EraValidatorWeights)
    (keys : list PublicKey) : SignatureWeight :=
  let total := fold_right (fun kw acc => (snd kw + acc)%N) 0%N (validator_weights weights) in
  let sum := fold_right (fun k acc => (weight_of k (validator_weights weights) + acc)%N) 0%N keys in
  if N.leb ((2 * total + 2) / 3 + 1)%N sum then Sufficient
  else if N.leb ((total + 2) / 3 + 1)%N sum then Weak
  else Insufficient.

(** ** Reactor control ([reactor/main_reactor/control.rs]) *)

(** [pub(crate) const WAIT_SEC: u64 = 5;] *)
Definition WAIT_SEC : N := 5.

Inductive ReactorState := Initialize | CatchUp | KeepUp | Validate.

(** [blocks_accumulator::StartingWith] *)
Inductive StartingWith :=
| StartingWithBlock (b : Block)
| StartingWithHash (h : BlockHash).

Definition starting_with_block_hash (sw : StartingWith) : BlockHash :=
  match sw with
  | StartingWithBlock b => block_hash_of b
  | StartingWithHash h => h
  end.

(** [blocks_accumulator::SyncInstruction] *)
Inductive SyncInstruction :=
| Leap
| BlockSync (block_hash : BlockHash) (should_fetch_execution_state : bool)
| BlockExec (b : Block)
| SyncCaughtUp.

Inductive ActivationPoint :=
| ActivationEraId (e : EraId)
| ActivationGenesis (ts : Timestamp).

Inductive MainEvent :=
| ReactorCrank
| Shutdown (msg : string)
| AttemptLeap (trusted_hash : BlockHash) (peers_to_ask : list NodeId)
| ComponentEffect (component : string).

(** An effect as scheduled through the effect builder. *)
Inductive Effect :=
| Immediately (ev : MainEvent)
| AfterSecs (secs : N) (ev : MainEvent).

Definition Effects := list Effect.

Inductive CatchUpInstruction :=
| Do (effects : Effects)
| CheckSoon (msg : string)
| CheckLater (msg : string) (wait : N)
| CatchUpShutdown (msg : string)
| CaughtUp
| CommitGenesis
| CommitUpgrade (h : BlockHeader).

Inductive StorageError := FatalStorageError.

(** What the collaborators answer during one crank: the block synchronizer's
    [last_progress()], the clock, [linear_chain.highest_block()],
    [storage.read_block], the accumulator's [sync_instruction], the network's
    random peer sample, consensus' [is_active_validator()], the components'
    [initialize_component] answers, and the outcome of [commit_genesis] /
    [commit_upgrade] (which run in the contract runtime). *)
Record Env := mkEnv {
  now : Timestamp;
  last_progress : option Timestamp;
  highest_block : option Block;
  read_block : BlockHash -> Result (option Block) StorageError;
  sync_instruction : StartingWith -> SyncInstruction;
  peers_random_vec : N -> list NodeId;
  is_active_validator : bool;
  initialize_component : string -> option Effects;
  commit_genesis_result : Result Effects string;
  commit_upgrade_result : BlockHeader -> Result Effects string
}.

(** The reactor fields the control code reads and writes;
    [registered_blocks] records the calls
    [block_synchronizer.register_block_by_hash(hash, fetch_execution_state, n)]
    in order. *)
Record MainReactor := mkMainReactor {
  state : ReactorState;
  attempts : nat;
  max_attempts : nat;
  idle_tolerances : TimeDiff;
  trusted_hash : option BlockHash;
  activation_point : ActivationPoint;
  sync_leap_simultaneous_peer_requests : N;
  registered_blocks : list (BlockHash * bool * N)
}.

Definition set_state (r : MainReactor) (s : ReactorState) : MainReactor :=
  mkMainReactor s (attempts r) (max_attempts r) (idle_tolerances r) (trusted_hash r)
    (activation_point r) (sync_leap_simultaneous_peer_requests r) (registered_blocks r).

Definition set_attempts (r : MainReactor) (n : nat) : MainReactor :=
  mkMainReactor (state r) n (max_attempts r) (idle_tolerances r) (trusted_hash r)
    (activation_point r) (sync_leap_simultaneous_peer_requests r) (registered_blocks r).

Definition register_block_by_hash (r : MainReactor) (h : BlockHash) (fetch : bool)
    (n : N) : MainReactor :=
  mkMainReactor (state r) (attempts r) (max_attempts r) (idle_tolerances r)
    (trusted_hash r) (activation_point r) (sync_leap_simultaneous_peer_requests r)
    (app (registered_blocks r) [(h, fetch, n)]).

(** [Timestamp::saturating_diff] *)
Definition saturating_diff (a b : Timestamp) : TimeDiff := (a - b)%N.

(** The three steps of [catch_up_instructions], in source order. *)
Inductive GuardOutcome :=
| GuardReturn (i : CatchUpInstruction) (r : MainReactor)
| GuardContinue (r : MainReactor).

(** "check idleness & enforce re-attempts if necessary" *)
Definition idleness_guard (env : Env) (r : MainReactor) : GuardOutcome :=
  match last_progress env with
  | Some timestamp =>
      if N.leb (saturating_diff (now env) timestamp) (idle_tolerances r) then
        GuardReturn (CheckLater "block_synchronizer is making progress" (WAIT_SEC * 2))
          (set_attempts r 0)
      else
        let r' := set_attempts r (S (attempts r)) in
        if Nat.ltb (max_attempts r') (attempts r') then
          GuardReturn (CatchUpShutdown "catch up process exceeds idle tolerances") r'
        else GuardContinue r'
  | None => GuardContinue r
  end.

(** "determine which block / block_hash we should attempt to leap from" *)
Definition determine_starting_with (env : Env) (r : MainReactor)
    : CatchUpInstruction + StartingWith :=
  match trusted_hash r with
  | None =>
      match highest_block env with
      | Some b => inr (StartingWithBlock b)
      | None =>
          match activation_point r with
          | ActivationGenesis timestamp =>
              if N.leb (now env) timestamp then inl CommitGenesis
              else inl (CatchUpShutdown
                     "post-genesis; cannot proceed without trusted hash provided")
          | ActivationEraId _ =>
              inl (CatchUpShutdown
                     "post-genesis; cannot proceed without trusted hash provided")
          end
      end
  | Some th =>
      match read_block env th with
      | Ok (Some trusted_block) =>
          match highest_block env with
          | Some b =>
              if N.ltb (block_height b) (block_height trusted_block)
              then inr (StartingWithHash th)
              else inr (StartingWithBlock b)
          | None => inr (StartingWithHash th)
          end
      | Ok None => inr (StartingWithHash th)
      | Err _ =>
          inl (CatchUpShutdown
                 "fatal block store error when attempting to read block under trusted hash")
      end
  end.

Definition catch_up_instructions (env : Env) (r : MainReactor)
    : CatchUpInstruction * MainReactor :=
  match idleness_guard env r with
  | GuardReturn i r' => (i, r')
  | GuardContinue r1 =>
      match determine_starting_with env r1 with
      | inl i => (i, r1)
      | inr starting_with =>
          let th := starting_with_block_hash starting_with in
          let n := sync_leap_simultaneous_peer_requests r1 in
          match sync_instruction env starting_with with
          | Leap =>
              (Do [Immediately (AttemptLeap th (peers_random_vec env n))], r1)
          | BlockSync h should_fetch_execution_state =>
              (CheckSoon "block_synchronizer is initialized",
               register_block_by_hash r1 h should_fetch_execution_state n)
          | BlockExec b =>
              (CheckSoon "block_synchronizer is initialized for potentially executable block",
               register_block_by_hash r1 (block_hash_of b) false n)
          | SyncCaughtUp =>
              match highest_block env with
              | Some b =>
                  if N.eqb (header_era_id (block_header b))
                       (header_next_block_era_id (block_header b))
                  then (CommitUpgrade (block_header b), r1)
                  else (CaughtUp, r1)
              | None =>
                  (CatchUpShutdown "can't be caught up with no block in the block store", r1)
              end
          end
      end
  end.

(** A crank either returns its effects or panics (as [todo!()] does). *)
Inductive CrankResult :=
| CrankEffects (effects : Effects)
| CrankPanic (msg : string).

Definition initialized_components : list string :=
  ["diagnostics"; "upgrade_watcher"; "small_network"; "event_stream_server";
   "rest_server"; "rpc_server"].

Fixpoint first_initialization (env : Env) (cs : list string) : option Effects :=
  match cs with
  | [] => None
  | c :: cs' =>
      match initialize_component env c with
      | Some effects => Some effects
      | None => first_initialization env cs'
      end
  end.

Definition crank_immediately : Effects := [Immediately ReactorCrank].

Definition crank (env : Env) (r : MainReactor) : CrankResult * MainReactor :=
  match state r with
  | Initialize =>
      match first_initialization env initialized_components with
      | Some effects => (CrankEffects effects, r)
      | None => (CrankEffects crank_immediately, set_state r CatchUp)
      end
  | CatchUp =>
      let (i, r1) := catch_up_instructions env r in
      match i with
      | CommitGenesis =>
          match commit_genesis_result env with
          | Ok effects => (CrankEffects (app effects [AfterSecs WAIT_SEC ReactorCrank]), r1)
          | Err msg => (CrankEffects [Immediately (Shutdown msg)], r1)
          end
      | CommitUpgrade header =>
          match commit_upgrade_result env header with
          | Ok effects => (CrankEffects (app effects [AfterSecs WAIT_SEC ReactorCrank]), r1)
          | Err msg => (CrankEffects [Immediately (Shutdown msg)], r1)
          end
      | Do effects => (CrankEffects (app effects [AfterSecs WAIT_SEC ReactorCrank]), r1)
      | CheckLater _ wait => (CrankEffects [AfterSecs wait ReactorCrank], r1)
      | CheckSoon _ => (CrankEffects crank_immediately, r1)
      | CatchUpShutdown msg => (CrankEffects [Immediately (Shutdown msg)], r1)
      | CaughtUp => (CrankEffects crank_immediately, set_state r1 KeepUp)
      end
  | KeepUp =>
      (* [let current_block_hash = BlockHash::default();] *)
      let n := sync_leap_simultaneous_peer_requests r in
      match sync_instruction env (StartingWithHash 0%N) with
      | Leap => (CrankEffects crank_immediately, set_state r CatchUp)
      | BlockSync h should_fetch_execution_state =>
          (* [register_block_by_hash(..)] then [todo!()] *)
          (CrankPanic "not yet implemented",
           register_block_by_hash r h should_fetch_execution_state n)
      | BlockExec b =>
          (CrankEffects crank_immediately, register_block_by_hash r (block_hash_of b) false n)
      | SyncCaughtUp =>
          if is_active_validator env
          then (CrankEffects crank_immediately, set_state r Validate)
          else (CrankEffects crank_immediately, r)
      end
  | Validate =>
      if negb (is_active_validator env)
      then (CrankEffects crank_immediately, set_state r KeepUp)
      else (CrankEffects crank_immediately, r)
  end.

(** Consecutive catch-up evaluations, one environment per crank. *)
Fixpoint catch_up_runs (envs : list Env) (r : MainReactor)
    : list CatchUpInstruction * MainReactor :=
  match envs with
  | [] => ([], r)
  | env :: envs' =>
      let (i, r1) := catch_up_instructions env r in
      let (is, r2) := catch_up_runs envs' r1 in
      (i :: is, r2)
  end.

(** ** [MainReactor::commit_genesis] *)

Definition Digest := N.

(** [ExecutionPreState::new(next_block_height, pre_state_root_hash,
    parent_hash, parent_seed)] *)
Record ExecutionPreState := mkExecutionPreState {
  next_block_height : N;
  pre_state_root_hash : Digest;
  parent_hash : BlockHash;
  parent_seed : Digest
}.

Inductive Proposer := ProposerSystem | ProposerKey (k : PublicKey).

(** [FinalizedBlock::new(payload, era_report, timestamp, era_id, height,
    proposer)]; the payload is the list of deploy hashes, the era report is
    present or absent ([Some(EraReport::default())] is [Some tt]). *)
Record FinalizedBlock := mkFinalizedBlock {
  fb_payload : list N;
  fb_era_report : option unit;
  fb_timestamp : Timestamp;
  fb_era_id : EraId;
  fb_height : N;
  fb_proposer : Proposer
}.

(** [ActivationPoint::genesis_timestamp] *)
Definition genesis_timestamp (ap : ActivationPoint) : option Timestamp :=
  match ap with
  | ActivationGenesis ts => Some ts
  | ActivationEraId _ => None
  end.

(** [commit_genesis]: [runtime] is the contract runtime's answer (the post
    state hash, or the [Debug] rendering of its error); on success the
    result is the initial pre-state handed to [set_initial_state] and the
    block enqueued for execution. [BlockHash::default()] and
    [Digest::default()] are the zero hash. *)
Definition commit_genesis (runtime : Result Digest string) (ap : ActivationPoint)
    : Result (ExecutionPreState * FinalizedBlock) string :=
  match runtime with
  | Ok post_state_hash =>
      match genesis_timestamp ap with
      | None => Err "must have genesis timestamp"
      | Some genesis_ts =>
          let next_height := 0%N in
          let initial_pre_state := mkExecutionPreState next_height post_state_hash 0%N 0%N in
          let finalized_block :=
            mkFinalizedBlock [] (Some tt) genesis_ts 0%N next_height ProposerSystem in
          Ok (initial_pre_state, finalized_block)
      end
  | Err err => Err ("failed to commit genesis: " ++ err)
  end.

(** * Properties of the block acceptor *)

Section AcceptorProofs.

Context (validate : BlockAdded -> bool).
Context (is_verified : FinalitySignature -> bool).
Context (has_sufficient_weight : EraValidatorWeights -> list PublicKey -> SignatureWeight).


Lemma set_latch_same (a : BlockGossipAcceptor) : set_latch a (can_execute_latch a) = a.
Proof. destruct a; reflexivity. Qed.

(** [can_execute has_sufficient_weight] only ever touches the latch, and returns its value. *)
Lemma can_execute_shape (a : BlockGossipAcceptor) (w : option EraValidatorWeights) :
  fst (can_execute has_sufficient_weight a w) = set_latch a (snd (can_execute has_sufficient_weight a w)) /\
  (can_execute_latch a = true -> snd (can_execute has_sufficient_weight a w) = true).
Proof.
  unfold can_execute.
  destruct (can_execute_latch a) eqn:L.
  - simpl. rewrite <- L, set_latch_same. auto.
  - destruct (block_added a); [|simpl; rewrite <- L, set_latch_same; auto].
    destruct w as [weights|]; [|simpl; rewrite <- L, set_latch_same; auto].
    destruct (signature_weight_eqb _ _); simpl; [auto|].
    rewrite <- L, set_latch_same. auto.
Qed.

Lemma can_execute_latched (a : BlockGossipAcceptor) (w : option EraValidatorWeights) :
  can_execute_latch a = true -> can_execute has_sufficient_weight a w = (a, true).
Proof.
  intro L. unfold can_execute. rewrite L. reflexivity.
Qed.

Lemma can_execute_latch_result (a : BlockGossipAcceptor) (w : option EraValidatorWeights) :
  can_execute_latch (fst (can_execute has_sufficient_weight a w)) = snd (can_execute has_sufficient_weight a w).
Proof.
  destruct (can_execute_shape a w) as [E _]. rewrite E. reflexivity.
Qed.

(** The two outcomes of [register_signature has_sufficient_weight]: the early wrong-era return,
    or the two [can_execute has_sufficient_weight] probes around the insertion. *)
Lemma register_signature_cases (a : BlockGossipAcceptor) (fs : FinalitySignature)
    (w : option EraValidatorWeights) :
  (exists ba, block_added a = Some ba /\ block_era_id (block ba) <> fs_era_id fs /\
     register_signature has_sufficient_weight a fs w =
       (a, Err (FinalitySignatureWithWrongEra fs (block_era_id (block ba))))) \/
  (exists a1 could a3 now,
     (forall ba, block_added a = Some ba -> block_era_id (block ba) = fs_era_id fs) /\
     can_execute has_sufficient_weight a w = (a1, could) /\
     can_execute has_sufficient_weight (set_signatures a1 (map_insert (fs_public_key fs) fs (signatures a1))) w
       = (a3, now) /\
     register_signature has_sufficient_weight a fs w = (a3, Ok (now && negb could))).
Proof.
  unfold register_signature.
  destruct (block_added a) as [ba|] eqn:B.
  - destruct (N.eqb (block_era_id (block ba)) (fs_era_id fs)) eqn:Q; simpl.
    + apply N.eqb_eq in Q. right.
      destruct (can_execute has_sufficient_weight a w) as [a1 could] eqn:E1.
      destruct (can_execute has_sufficient_weight (set_signatures a1 (map_insert (fs_public_key fs) fs
                  (signatures a1))) w) as [a3 now] eqn:E3.
      exists a1, could, a3, now.
      split; [intros ba' H; inversion H; subst; exact Q|].
      repeat split; auto.
    + apply N.eqb_neq in Q. left. exists ba. auto.
  - right.
    destruct (can_execute has_sufficient_weight a w) as [a1 could] eqn:E1.
    destruct (can_execute has_sufficient_weight (set_signatures a1 (map_insert (fs_public_key fs) fs
                (signatures a1))) w) as [a3 now] eqn:E3.
    exists a1, could, a3, now.
    split; [intros ba' H; discriminate H|].
    repeat split; auto.
Qed.

(** The three outcomes of [register_block validate has_sufficient_weight]. *)
Lemma register_block_cases (a : BlockGossipAcceptor) (ba : BlockAdded)
    (w : option EraValidatorWeights) :
  (block_added a <> None /\ register_block validate has_sufficient_weight a ba w = (a, Ok false)) \/
  (block_added a = None /\ validate ba = false /\
     register_block validate has_sufficient_weight a ba w = (a, Err InvalidBlockAdded)) \/
  (exists a1 could a3 now,
     block_added a = None /\ validate ba = true /\
     can_execute has_sufficient_weight (set_signatures a
        (map_retain (fun _ fs => N.eqb (fs_era_id fs) (block_era_id (block ba)))
           (signatures a))) w = (a1, could) /\
     can_execute has_sufficient_weight (set_block_added a1 (Some ba)) w = (a3, now) /\
     register_block validate has_sufficient_weight a ba w = (a3, Ok (now && negb could))).
Proof.
  unfold register_block.
  destruct (block_added a) as [ba0|] eqn:B.
  - left. split; [discriminate|reflexivity].
  - destruct (validate ba) eqn:V; simpl.
    + right; right.
      destruct (can_execute has_sufficient_weight (set_signatures a (map_retain
                  (fun _ fs => N.eqb (fs_era_id fs) (block_era_id (block ba)))
                  (signatures a))) w) as [a1 could] eqn:E1.
      destruct (can_execute has_sufficient_weight (set_block_added a1 (Some ba)) w) as [a3 now] eqn:E3.
      exists a1, could, a3, now. repeat split; auto.
    + right; left. auto.
Qed.

(** Every operation keeps a set latch set. *)
Lemma apply_op_latch_mono (a : BlockGossipAcceptor) (op : AcceptorOp) :
  can_execute_latch a = true -> can_execute_latch (fst (apply_op validate has_sufficient_weight a op)) = true.
Proof.
  intro L. destruct op as [fs w|ba w|w]; simpl.
  - destruct (register_signature_cases a fs w)
      as [[ba [_ [_ R]]]|[a1 [could [a3 [now [_ [E1 [E3 R]]]]]]]];
      rewrite R; [exact L|].
    rewrite (can_execute_latched a w L) in E1. inversion E1; subst.
    rewrite can_execute_latched in E3; [|exact L]. inversion E3; subst. exact L.
  - destruct (register_block_cases a ba w)
      as [[_ R]|[[_ [_ R]]|[a1 [could [a3 [now [_ [_ [E1 [E3 R]]]]]]]]]];
      rewrite R; try exact L.
    rewrite can_execute_latched in E1; [|exact L]. inversion E1; subst.
    rewrite can_execute_latched in E3; [|exact L]. inversion E3; subst. exact L.
  - rewrite (can_execute_latched a w L). exact L.
Qed.

(** An [Ok(true)] answer is exactly a false-to-true move of the latch. *)
Lemma apply_op_ok_true (a : BlockGossipAcceptor) (op : AcceptorOp) :
  is_ok_true (snd (apply_op validate has_sufficient_weight a op)) = true ->
  can_execute_latch a = false /\ can_execute_latch (fst (apply_op validate has_sufficient_weight a op)) = true.
Proof.
  destruct op as [fs w|ba w|w]; simpl.
  - destruct (register_signature_cases a fs w)
      as [[ba [_ [_ R]]]|[a1 [could [a3 [now [_ [E1 [E3 R]]]]]]]];
      rewrite R; simpl; [discriminate|].
    intro H. destruct now, could; try discriminate.
    split.
    + destruct (can_execute_latch a) eqn:L; [|reflexivity].
      rewrite (can_execute_latched a w L) in E1. congruence.
    + pose proof (can_execute_latch_result
                    (set_signatures a1 (map_insert (fs_public_key fs) fs (signatures a1))) w)
        as C. rewrite E3 in C. exact C.
  - destruct (register_block_cases a ba w)
      as [[_ R]|[[_ [_ R]]|[a1 [could [a3 [now [_ [_ [E1 [E3 R]]]]]]]]]];
      rewrite R; simpl; try discriminate.
    intro H. destruct now, could; try discriminate.
    split.
    + destruct (can_execute_latch a) eqn:L; [|reflexivity].
      rewrite can_execute_latched in E1; [congruence|exact L].
    + pose proof (can_execute_latch_result (set_block_added a1 (Some ba)) w) as C.
      rewrite E3 in C. exact C.
  - destruct (can_execute has_sufficient_weight a w); discriminate.
Qed.

Lemma run_ops_latched_silent (a : BlockGossipAcceptor) (ops : list AcceptorOp) :
  can_execute_latch a = true -> count_ok_true (snd (run_ops validate has_sufficient_weight a ops)) = 0.
Proof.
  revert a. induction ops as [|op ops IH]; intros a L; [reflexivity|].
  simpl. destruct (apply_op validate has_sufficient_weight a op) as [a1 o] eqn:E.
  destruct (run_ops validate has_sufficient_weight a1 ops) as [a2 os] eqn:E2.
  assert (L1 : can_execute_latch a1 = true).
  { pose proof (apply_op_latch_mono a op L) as M. rewrite E in M. exact M. }
  specialize (IH a1 L1). rewrite E2 in IH. simpl in IH.
  unfold count_ok_true. simpl.
  destruct (is_ok_true o) eqn:O.
  - destruct (apply_op_ok_true a op) as [L0 _]; [rewrite E; exact O|].
    congruence.
  - exact IH.
Qed.

Lemma run_ops_latch_mono (a : BlockGossipAcceptor) (ops : list AcceptorOp) :
  can_execute_latch a = true -> can_execute_latch (fst (run_ops validate has_sufficient_weight a ops)) = true.
Proof.
  revert a. induction ops as [|op ops IH]; intros a L; [exact L|].
  simpl. destruct (apply_op validate has_sufficient_weight a op) as [a1 o] eqn:E.
  destruct (run_ops validate has_sufficient_weight a1 ops) as [a2 os] eqn:E2.
  pose proof (apply_op_latch_mono a op L) as M. rewrite E in M.
  specialize (IH a1 M). rewrite E2 in IH. exact IH.
Qed.

Lemma map_insert_forall (P : PublicKey * FinalitySignature -> Prop) k v (m : SigMap) :
  Forall P m -> P (k, v) -> Forall P (map_insert k v m).
Proof.
  induction m as [|[k' v'] m IH]; intros Hm Hkv; simpl; [auto|].
  inversion Hm as [|? ? Hkv' Hm']; subst.
  destruct (N.compare k k'); auto.
Qed.

Lemma map_get_insert k v (m : SigMap) : map_get k (map_insert k v m) = Some v.
Proof.
  induction m as [|[k' v'] m IH]; simpl.
  - rewrite N.eqb_refl. reflexivity.
  - destruct (N.compare k k') eqn:C; simpl.
    + rewrite N.eqb_refl. reflexivity.
    + rewrite N.eqb_refl. reflexivity.
    + apply N.compare_gt_iff in C.
      destruct (N.eqb_spec k k'); [lia|exact IH].
Qed.

Lemma map_retain_era (era : EraId) (m : SigMap) :
  sig_map_era_pure era (map_retain (fun _ fs => N.eqb (fs_era_id fs) era) m).
Proof.
  unfold sig_map_era_pure, map_retain.
  apply Forall_forall. intros kv Hin.
  apply filter_In in Hin as [_ E]. apply N.eqb_eq in E. exact E.
Qed.

(** Field-wise effect of one operation: the constructor-fixed fields never
    change; the block and the signatures change only as listed. *)
Lemma apply_op_fields (a : BlockGossipAcceptor) (op : AcceptorOp) :
  let a' := fst (apply_op validate has_sufficient_weight a op) in
  block_hash a' = block_hash a /\ era_id a' = era_id a /\
  ((block_added a' = block_added a /\ signatures a' = signatures a) \/
   (exists fs w, op = OpRegisterSignature fs w /\
      (forall ba, block_added a = Some ba -> block_era_id (block ba) = fs_era_id fs) /\
      block_added a' = block_added a /\
      signatures a' = map_insert (fs_public_key fs) fs (signatures a)) \/
   (exists ba w, op = OpRegisterBlock ba w /\ block_added a = None /\
      block_added a' = Some ba /\
      signatures a' = map_retain
        (fun _ fs => N.eqb (fs_era_id fs) (block_era_id (block ba))) (signatures a))).
Proof.
  destruct op as [fs w|ba w|w]; simpl.
  - destruct (register_signature_cases a fs w)
      as [[ba [_ [_ R]]]|[a1 [could [a3 [now [Hera [E1 [E3 R]]]]]]]];
      rewrite R; simpl; [auto|].
    pose proof (proj1 (can_execute_shape a w)) as F1. rewrite E1 in F1. simpl in F1.
    pose proof (proj1 (can_execute_shape
      (set_signatures a1 (map_insert (fs_public_key fs) fs (signatures a1))) w)) as F3.
    rewrite E3 in F3. simpl in F3. subst a3 a1. simpl.
    repeat split; auto.
    right; left. exists fs, w. auto.
  - destruct (register_block_cases a ba w)
      as [[_ R]|[[_ [_ R]]|[a1 [could [a3 [now [B [_ [E1 [E3 R]]]]]]]]]];
      rewrite R; simpl; try (repeat split; auto; fail).
    pose proof (proj1 (can_execute_shape (set_signatures a (map_retain
      (fun _ fs => N.eqb (fs_era_id fs) (block_era_id (block ba))) (signatures a))) w))
      as F1. rewrite E1 in F1. simpl in F1.
    pose proof (proj1 (can_execute_shape (set_block_added a1 (Some ba)) w)) as F3.
    rewrite E3 in F3. simpl in F3. subst a3 a1. simpl.
    repeat split; auto.
    right; right. exists ba, w. auto.
  - pose proof (proj1 (can_execute_shape a w)) as F.
    destruct (can_execute has_sufficient_weight a w) as [a' b]. simpl in *. subst a'. simpl. auto.
Qed.

End AcceptorProofs.

Section AcceptorClaims.

Context (validate : BlockAdded -> bool).
Context (is_verified : FinalitySignature -> bool).
Context (has_sufficient_weight : EraValidatorWeights -> list PublicKey -> SignatureWeight).


(** C1: over any sequence of [register_signature has_sufficient_weight] / [register_block validate has_sufficient_weight] calls
    on one acceptor (any [can_execute has_sufficient_weight] calls may be interleaved as well),
    at most one call returns [Ok(true)]. *)
Theorem register_calls_at_most_one_ok_true
    (a : BlockGossipAcceptor) (ops : list AcceptorOp) :
  count_ok_true (snd (run_ops validate has_sufficient_weight a ops)) <= 1.
Proof.
  revert a. induction ops as [|op ops IH]; intros a; [cbv; lia|].
  simpl. destruct (apply_op validate has_sufficient_weight a op) as [a1 o] eqn:E.
  destruct (run_ops validate has_sufficient_weight a1 ops) as [a2 os] eqn:E2.
  unfold count_ok_true. simpl.
  destruct (is_ok_true o) eqn:O; simpl.
  - destruct (apply_op_ok_true validate has_sufficient_weight a op) as [_ L1];
      [rewrite E; exact O|].
    rewrite E in L1. simpl in L1.
    pose proof (run_ops_latched_silent validate has_sufficient_weight a1 ops L1) as Z.
    rewrite E2 in Z. unfold count_ok_true in Z. simpl in Z. lia.
  - specialize (IH a1). rewrite E2 in IH. exact IH.
Qed.

(** C2: once a call [can_execute has_sufficient_weight(w)] returned true, after any further
    operations every call [can_execute has_sufficient_weight(w')] returns true, whatever [w']
    (including [None]). *)
Theorem can_execute_true_stays_true
    (a a1 : BlockGossipAcceptor) (w : option EraValidatorWeights) :
  can_execute has_sufficient_weight a w = (a1, true) ->
  forall (ops : list AcceptorOp) (w' : option EraValidatorWeights),
    snd (can_execute has_sufficient_weight (fst (run_ops validate has_sufficient_weight a1 ops)) w') = true.
Proof.
  intros E ops w'.
  pose proof (can_execute_latch_result has_sufficient_weight a w) as L.
  rewrite E in L. simpl in L.
  pose proof (run_ops_latch_mono validate has_sufficient_weight a1 ops L) as M.
  rewrite (can_execute_latched has_sufficient_weight _ w' M). reflexivity.
Qed.

Lemma reachable_block_era_pure_gen (a : BlockGossipAcceptor) :
  reachable validate is_verified has_sufficient_weight a ->
  forall ba, block_added a = Some ba ->
    sig_map_era_pure (block_era_id (block ba)) (signatures a).
Proof.
  induction 1 as [ba0 a E|fs w a E|a op R IH]; intros ba B.
  - unfold new_from_block_added in E.
    destruct (validate ba0); simpl in E; inversion E; subst. constructor.
  - unfold new_from_finality_signature in E.
    destruct (is_verified fs); simpl in E; [|discriminate].
    destruct w as [weights|]; [destruct (negb _)|]; inversion E; subst;
      discriminate B.
  - destruct (apply_op_fields validate has_sufficient_weight a op)
      as [_ [_ [[B' S]|[[fs [w [_ [Hera [B' S]]]]]|[ba' [w [_ [_ [B' S]]]]]]]]];
      rewrite S; rewrite B' in B.
    + exact (IH ba B).
    + apply map_insert_forall; [exact (IH ba B)|]. simpl. symmetry. exact (Hera ba B).
    + inversion B; subst. apply map_retain_era.
Qed.

(** C3 (amended): in every state reachable from a constructor, once the
    acceptor holds a block, every stored signature has the block's era. *)
Theorem reachable_block_era_pure (a : BlockGossipAcceptor) :
  reachable validate is_verified has_sufficient_weight a ->
  forall ba, block_added a = Some ba ->
    Forall (fun kv => fs_era_id (snd kv) = block_era_id (block ba)) (signatures a).
Proof. exact (reachable_block_era_pure_gen a). Qed.

(** C4 (amended): in every state reachable from a constructor through calls
    that hand [register_block validate has_sufficient_weight] only blocks whose hash is the acceptor's
    [block_hash], [block_hash] is the hash of the held block. *)
Theorem reachable_routed_block_hash (a : BlockGossipAcceptor) :
  reachable_routed validate is_verified has_sufficient_weight a ->
  forall ba, block_added a = Some ba -> block_hash a = block_hash_of (block ba).
Proof.
  induction 1 as [ba0 a E|fs w a E|a op R IH Hr]; intros ba B.
  - unfold new_from_block_added in E.
    destruct (validate ba0); simpl in E; inversion E; subst.
    simpl in B. inversion B; subst. reflexivity.
  - unfold new_from_finality_signature in E.
    destruct (is_verified fs); simpl in E; [|discriminate].
    destruct w as [weights|]; [destruct (negb _)|]; inversion E; subst;
      discriminate B.
  - destruct (apply_op_fields validate has_sufficient_weight a op)
      as [H [_ [[B' _]|[[fs [w [_ [_ [B' _]]]]]|[ba' [w [Op [_ [B' _]]]]]]]]];
      rewrite H; rewrite B' in B.
    + exact (IH ba B).
    + exact (IH ba B).
    + inversion B; subst. simpl in Hr. symmetry. exact Hr.
Qed.

(** C5: [register_signature has_sufficient_weight] does not check [is_verified]: a signature that
    fails verification is accepted ([Ok]) and stored when the acceptor has
    no block yet. *)
Theorem register_signature_stores_unverified
    (a : BlockGossipAcceptor) (fs : FinalitySignature) (w : option EraValidatorWeights) :
  is_verified fs = false -> block_added a = None ->
  (exists b, snd (register_signature has_sufficient_weight a fs w) = Ok b) /\
  map_get (fs_public_key fs) (signatures (fst (register_signature has_sufficient_weight a fs w))) = Some fs.
Proof.
  intros _ B.
  destruct (register_signature_cases has_sufficient_weight a fs w)
    as [[ba [B' _]]|[a1 [could [a3 [now [_ [E1 [E3 R]]]]]]]];
    [congruence|].
  rewrite R. simpl. split; [eauto|].
  pose proof (proj1 (can_execute_shape has_sufficient_weight a w)) as F1.
  rewrite E1 in F1. simpl in F1.
  pose proof (proj1 (can_execute_shape has_sufficient_weight
    (set_signatures a1 (map_insert (fs_public_key fs) fs (signatures a1))) w)) as F3.
  rewrite E3 in F3. simpl in F3. subst a3 a1. simpl.
  apply map_get_insert.
Qed.

(** C6: with a block present, a signature of another era is rejected with
    [FinalitySignatureWithWrongEra] carrying the block's era, and the
    acceptor is left exactly as it was. *)
Theorem register_signature_wrong_era
    (a : BlockGossipAcceptor) (fs : FinalitySignature) (w : option EraValidatorWeights)
    (ba : BlockAdded) :
  block_added a = Some ba -> block_era_id (block ba) <> fs_era_id fs ->
  register_signature has_sufficient_weight a fs w =
    (a, Err (FinalitySignatureWithWrongEra fs (block_era_id (block ba)))).
Proof.
  intros B Hne. unfold register_signature. rewrite B.
  apply N.eqb_neq in Hne. rewrite Hne. reflexivity.
Qed.

End AcceptorClaims.

(** ** Concrete runs of the acceptor *)

Section AcceptorRuns.
Local Open Scope N_scope.

(** Stand-ins for the collaborators outside the source files, used only to
    run concrete inputs: a toy signature check in place of the cryptographic
    one, a block validator accepting the (well-formed) blocks below, and the
    spec's weight classifier [spec_has_sufficient_weight]. *)
Definition demo_is_verified (fs : FinalitySignature) : bool :=
  N.eqb (fs_signature fs) (fs_public_key fs + fs_block_hash fs + fs_era_id fs).

Definition demo_validate (_ : BlockAdded) : bool := true.

Definition demo_sig (key : PublicKey) (era : EraId) (hash : BlockHash) : FinalitySignature :=
  mkFinalitySignature hash era key (key + hash + era).

Definition demo_block (hash : BlockHash) (era : EraId) : BlockAdded :=
  mkBlockAdded (mkBlock hash (mkBlockHeader era 100 era)) [].

(** Validators 1, 2, 3 with weights 50, 40, 30 in era 7 (threshold 81). *)
Definition demo_weights : EraValidatorWeights :=
  mkEraValidatorWeights 7 [(1, 50); (2, 40); (3, 30)]%N.

Definition demo_acceptor_from_block : BlockGossipAcceptor :=
  mkAcceptor 1 7 (Some (demo_block 1 7)) [] false.

Example demo_new_from_block_added :
  new_from_block_added demo_validate (demo_block 1 7) = Ok demo_acceptor_from_block.
Proof. reflexivity. Qed.

Example demo_run_weight_crossing :
  snd (run_ops demo_validate spec_has_sufficient_weight demo_acceptor_from_block
         [OpRegisterSignature (demo_sig 1 7 1) (Some demo_weights);
          OpCanExecute (Some demo_weights);
          OpRegisterSignature (demo_sig 3 7 1) (Some demo_weights);
          OpRegisterSignature (demo_sig 2 7 1) (Some demo_weights);
          OpRegisterSignature (demo_sig 1 7 1) (Some demo_weights);
          OpCanExecute None])
  = [OutResult (Ok false); OutBool false; OutResult (Ok false);
     OutResult (Ok true); OutResult (Ok false); OutBool true].
Proof. reflexivity. Qed.

(** Acceptor with block of era 7 and signatures of validators 1 and 2. *)
Definition demo_acceptor_signed : BlockGossipAcceptor :=
  fst (run_ops demo_validate spec_has_sufficient_weight demo_acceptor_from_block
         [OpRegisterSignature (demo_sig 1 7 1) None;
          OpRegisterSignature (demo_sig 2 7 1) None]).

Lemma can_execute_true_stays_true_witness :
  can_execute spec_has_sufficient_weight demo_acceptor_signed (Some demo_weights)
    = (set_latch demo_acceptor_signed true, true) /\
  snd (can_execute spec_has_sufficient_weight
         (fst (run_ops demo_validate spec_has_sufficient_weight
                 (set_latch demo_acceptor_signed true)
                 [OpRegisterSignature (demo_sig 3 7 1) None]))
         None) = true.
Proof.
  split; [reflexivity|].
  exact (can_execute_true_stays_true demo_validate spec_has_sufficient_weight
           demo_acceptor_signed (set_latch demo_acceptor_signed true)
           (Some demo_weights) eq_refl
           [OpRegisterSignature (demo_sig 3 7 1) None] None).
Defined.

(** Built from a signature of era 5 for hash 1. *)
Definition demo_acceptor_from_sig : BlockGossipAcceptor :=
  mkAcceptor 1 5 None [(4, demo_sig 4 5 1)] false.

Example demo_new_from_finality_signature :
  new_from_finality_signature demo_is_verified (demo_sig 4 5 1) None
    = Ok demo_acceptor_from_sig.
Proof. reflexivity. Qed.

(** C3: a signature of era 6 is stored by an acceptor of era 5 that has no
    block yet. *)
Lemma reachable_era_mixed_counterexample :
  let a := fst (apply_op demo_validate spec_has_sufficient_weight demo_acceptor_from_sig
                  (OpRegisterSignature (demo_sig 2 6 1) None)) in
  reachable demo_validate demo_is_verified spec_has_sufficient_weight a /\
  snd (register_signature spec_has_sufficient_weight demo_acceptor_from_sig
         (demo_sig 2 6 1) None) = Ok false /\
  era_id a = 5%N /\
  map_get 2 (signatures a) = Some (demo_sig 2 6 1) /\
  ~ Forall (fun kv => fs_era_id (snd kv) = era_id a) (signatures a).
Proof.
  intro a. split; [|split; [reflexivity|split; [reflexivity|split; [reflexivity|]]]].
  - apply reachable_op.
    apply (reachable_finality_signature _ _ _ (demo_sig 4 5 1) None).
    reflexivity.
  - intro H. vm_compute in H. apply Forall_inv in H. discriminate H.
Qed.

(** Same acceptor after a block of era 6 arrived: the era-5 signature is
    purged, the era-6 one kept. *)
Definition demo_acceptor_sig_block : BlockGossipAcceptor :=
  fst (apply_op demo_validate spec_has_sufficient_weight
         (fst (apply_op demo_validate spec_has_sufficient_weight demo_acceptor_from_sig
                 (OpRegisterSignature (demo_sig 2 6 1) None)))
         (OpRegisterBlock (demo_block 1 6) None)).

Lemma reachable_block_era_pure_witness :
  reachable demo_validate demo_is_verified spec_has_sufficient_weight
    demo_acceptor_sig_block /\
  block_added demo_acceptor_sig_block = Some (demo_block 1 6) /\
  map_keys (signatures demo_acceptor_sig_block) = [2%N] /\
  Forall (fun kv => fs_era_id (snd kv) = block_era_id (block (demo_block 1 6)))
    (signatures demo_acceptor_sig_block).
Proof.
  assert (R : reachable demo_validate demo_is_verified spec_has_sufficient_weight
                demo_acceptor_sig_block).
  { apply reachable_op. apply reachable_op.
    apply (reachable_finality_signature _ _ _ (demo_sig 4 5 1) None).
    reflexivity. }
  split; [exact R|split; [reflexivity|split; [reflexivity|]]].
  exact (reachable_block_era_pure demo_validate demo_is_verified spec_has_sufficient_weight
           demo_acceptor_sig_block R (demo_block 1 6) eq_refl).
Defined.

(** C4: an acceptor built from a signature for hash 1 accepts a block of
    hash 2 with [Ok], and then holds a block whose hash is not its own. *)
Lemma register_block_hash_mismatch_counterexample :
  let a := fst (apply_op demo_validate spec_has_sufficient_weight demo_acceptor_from_sig
                  (OpRegisterBlock (demo_block 2 5) None)) in
  reachable demo_validate demo_is_verified spec_has_sufficient_weight a /\
  snd (register_block demo_validate spec_has_sufficient_weight demo_acceptor_from_sig
         (demo_block 2 5) None) = Ok false /\
  block_added a = Some (demo_block 2 5) /\
  block_hash a = 1%N /\
  block_hash a <> block_hash_of (block (demo_block 2 5)).
Proof.
  intro a. split; [|split; [reflexivity|split; [reflexivity|split; [reflexivity|]]]].
  - apply reachable_op.
    apply (reachable_finality_signature _ _ _ (demo_sig 4 5 1) None).
    reflexivity.
  - discriminate.
Qed.

Definition demo_acceptor_routed : BlockGossipAcceptor :=
  fst (apply_op demo_validate spec_has_sufficient_weight demo_acceptor_from_sig
         (OpRegisterBlock (demo_block 1 5) None)).

Lemma reachable_routed_block_hash_witness :
  reachable_routed demo_validate demo_is_verified spec_has_sufficient_weight
    demo_acceptor_routed /\
  block_added demo_acceptor_routed = Some (demo_block 1 5) /\
  block_hash demo_acceptor_routed = block_hash_of (block (demo_block 1 5)).
Proof.
  assert (R : reachable_routed demo_validate demo_is_verified spec_has_sufficient_weight
                demo_acceptor_routed).
  { apply routed_op; [|reflexivity].
    apply (routed_finality_signature _ _ _ (demo_sig 4 5 1) None).
    reflexivity. }
  split; [exact R|split; [reflexivity|]].
  exact (reachable_routed_block_hash demo_validate demo_is_verified
           spec_has_sufficient_weight demo_acceptor_routed R (demo_block 1 5) eq_refl).
Defined.

(** A signature of validator 2 whose bytes do not verify. *)
Definition demo_bad_sig : FinalitySignature := mkFinalitySignature 1 5 2 0.

Lemma register_signature_stores_unverified_witness :
  demo_is_verified demo_bad_sig = false /\
  block_added demo_acceptor_from_sig = None /\
  register_signature spec_has_sufficient_weight demo_acceptor_from_sig demo_bad_sig None
    = (mkAcceptor 1 5 None [(2, demo_bad_sig); (4, demo_sig 4 5 1)] false, Ok false) /\
  ((exists b, snd (register_signature spec_has_sufficient_weight demo_acceptor_from_sig
                     demo_bad_sig None) = Ok b) /\
   map_get 2 (signatures (fst (register_signature spec_has_sufficient_weight
                                  demo_acceptor_from_sig demo_bad_sig None)))
     = Some demo_bad_sig).
Proof.
  split; [reflexivity|split; [reflexivity|split; [reflexivity|]]].
  exact (register_signature_stores_unverified demo_is_verified spec_has_sufficient_weight
           demo_acceptor_from_sig demo_bad_sig None eq_refl eq_refl).
Defined.

Lemma register_signature_wrong_era_witness :
  block_added demo_acceptor_from_block = Some (demo_block 1 7) /\
  register_signature spec_has_sufficient_weight demo_acceptor_from_block
    (demo_sig 2 8 1) (Some demo_weights)
  = (demo_acceptor_from_block,
     Err (FinalitySignatureWithWrongEra (demo_sig 2 8 1) 7)).
Proof.
  split; [reflexivity|].
  apply (register_signature_wrong_era spec_has_sufficient_weight
           demo_acceptor_from_block (demo_sig 2 8 1) (Some demo_weights)
           (demo_block 1 7) eq_refl).
  discriminate.
Defined.

End AcceptorRuns.

(** * Properties of the catch-up evaluator and the crank *)

Definition idle_shutdown_msg : string := "catch up process exceeds idle tolerances".

(** The synchronizer reports a last progress older than the tolerance. *)
Definition stale (tol : TimeDiff) (env : Env) : Prop :=
  exists t, last_progress env = Some t /\ (tol < saturating_diff (now env) t)%N.

Ltac destruct_matches :=
  repeat match goal with
         | |- context [match ?x with _ => _ end] =>
             lazymatch x with
             | context [match _ with _ => _ end] => fail
             | _ => destruct x
             end
         end.

(** After the idleness guard lets a crank through, the rest of the
    evaluator never produces the idleness shutdown and leaves the counters
    alone. *)
Lemma catch_up_after_guard (env : Env) (r r1 : MainReactor) :
  idleness_guard env r = GuardContinue r1 ->
  fst (catch_up_instructions env r) <> CatchUpShutdown idle_shutdown_msg /\
  attempts (snd (catch_up_instructions env r)) = attempts r1 /\
  max_attempts (snd (catch_up_instructions env r)) = max_attempts r1 /\
  idle_tolerances (snd (catch_up_instructions env r)) = idle_tolerances r1.
Proof.
  intro G. unfold catch_up_instructions. rewrite G.
  unfold determine_starting_with, idle_shutdown_msg.
  destruct_matches; simpl; repeat split; first [discriminate | reflexivity].
Qed.

Lemma idleness_guard_stale (env : Env) (r : MainReactor) :
  stale (idle_tolerances r) env ->
  idleness_guard env r =
    (if Nat.ltb (max_attempts r) (S (attempts r))
     then GuardReturn (CatchUpShutdown idle_shutdown_msg) (set_attempts r (S (attempts r)))
     else GuardContinue (set_attempts r (S (attempts r)))).
Proof.
  intros [t [P T]]. unfold idleness_guard. rewrite P.
  apply N.leb_gt in T. rewrite T. reflexivity.
Qed.

Lemma catch_up_runs_cons (env : Env) (envs : list Env) (r : MainReactor) :
  catch_up_runs (env :: envs) r =
    let (i, r1) := catch_up_instructions env r in
    let (is, r2) := catch_up_runs envs r1 in
    (i :: is, r2).
Proof. reflexivity. Qed.

Lemma catch_up_runs_frozen (env : Env) (envs : list Env) (r : MainReactor) :
  Forall (stale (idle_tolerances r)) (env :: envs) ->
  attempts r + S (List.length envs) = S (max_attempts r) ->
  nth_error (fst (catch_up_runs (env :: envs) r)) (List.length envs)
    = Some (CatchUpShutdown idle_shutdown_msg) /\
  (forall k, k < List.length envs ->
     nth_error (fst (catch_up_runs (env :: envs) r)) k
       <> Some (CatchUpShutdown idle_shutdown_msg)).
Proof.
  revert env r. induction envs as [|env' envs IH]; intros env r St Len.
  - inversion St as [|? ? S0 _]; subst. simpl.
    unfold catch_up_instructions. rewrite (idleness_guard_stale env r S0).
    simpl in Len. assert (Nat.ltb (max_attempts r) (S (attempts r)) = true)
      as -> by (apply Nat.ltb_lt; lia).
    split; [reflexivity|]. intros k Hk. lia.
  - inversion St as [|? ? S0 St']; subst.
    simpl in Len.
    assert (G : idleness_guard env r = GuardContinue (set_attempts r (S (attempts r)))).
    { rewrite (idleness_guard_stale env r S0).
      assert (Nat.ltb (max_attempts r) (S (attempts r)) = false)
        as -> by (apply Nat.ltb_ge; lia).
      reflexivity. }
    destruct (catch_up_after_guard env r _ G) as [Ne [A [M T]]].
    rewrite catch_up_runs_cons.
    destruct (catch_up_instructions env r) as [i r1] eqn:E.
    simpl in Ne, A, M, T.
    assert (St1 : Forall (stale (idle_tolerances r1)) (env' :: envs)) by (rewrite T; exact St').
    assert (Len1 : attempts r1 + S (List.length envs) = S (max_attempts r1)) by (rewrite A, M; simpl; lia).
    destruct (IH env' r1 St1 Len1) as [Last Before].
    destruct (catch_up_runs (env' :: envs) r1) as [is r2] eqn:E2.
    simpl in Last, Before |- *.
    split; [exact Last|].
    intros k Hk. destruct k as [|k]; simpl.
    + intro H. inversion H. contradiction.
    + apply Before. lia.
Qed.

(** C7 (amended): when the catch-up evaluator asks the accumulator and gets
    [BlockSync{hash, fetch_execution_state}], it registers [hash] with the
    block synchronizer forwarding the flag as given, and returns
    [CheckSoon]. *)
Theorem catch_up_block_sync_forwards_flag (env : Env) (r r1 : MainReactor)
    (sw : StartingWith) (h : BlockHash) (f : bool) :
  idleness_guard env r = GuardContinue r1 ->
  determine_starting_with env r1 = inr sw ->
  sync_instruction env sw = BlockSync h f ->
  catch_up_instructions env r =
    (CheckSoon "block_synchronizer is initialized",
     register_block_by_hash r1 h f (sync_leap_simultaneous_peer_requests r1)).
Proof.
  intros G D S. unfold catch_up_instructions. rewrite G, D, S. reflexivity.
Qed.

(** C8: the idleness guard of the catch-up evaluator. Progress within the
    tolerance resets [attempts] and asks to check again after
    [WAIT_SEC * 2] seconds; stale progress increments [attempts], and the
    idleness shutdown is returned exactly when the new count exceeds
    [max_attempts]; so from [attempts = 0], [max_attempts + 1] consecutive
    stale cranks end in that shutdown, and no earlier one does. *)
Theorem catch_up_idleness_guard :
  (forall (env : Env) (r : MainReactor) (t : Timestamp),
     last_progress env = Some t ->
     (saturating_diff (now env) t <= idle_tolerances r)%N ->
     catch_up_instructions env r =
       (CheckLater "block_synchronizer is making progress" (WAIT_SEC * 2),
        set_attempts r 0)) /\
  (forall (env : Env) (r : MainReactor),
     stale (idle_tolerances r) env ->
     attempts (snd (catch_up_instructions env r)) = S (attempts r) /\
     (fst (catch_up_instructions env r) = CatchUpShutdown idle_shutdown_msg <->
      max_attempts r < S (attempts r))) /\
  (forall (env : Env) (envs : list Env) (r : MainReactor),
     attempts r = 0 ->
     List.length (env :: envs) = S (max_attempts r) ->
     Forall (stale (idle_tolerances r)) (env :: envs) ->
     nth_error (fst (catch_up_runs (env :: envs) r)) (max_attempts r)
       = Some (CatchUpShutdown idle_shutdown_msg) /\
     (forall k, k < max_attempts r ->
        nth_error (fst (catch_up_runs (env :: envs) r)) k
          <> Some (CatchUpShutdown idle_shutdown_msg))).
Proof.
  split; [|split].
  - intros env r t P T. unfold catch_up_instructions, idleness_guard.
    rewrite P. apply N.leb_le in T. rewrite T. reflexivity.
  - intros env r St.
    destruct (Nat.ltb (max_attempts r) (S (attempts r))) eqn:L.
    + unfold catch_up_instructions. rewrite (idleness_guard_stale env r St), L.
      simpl. apply Nat.ltb_lt in L. split; [reflexivity|tauto].
    + assert (G : idleness_guard env r = GuardContinue (set_attempts r (S (attempts r)))).
      { rewrite (idleness_guard_stale env r St), L. reflexivity. }
      destruct (catch_up_after_guard env r _ G) as [Ne [A _]].
      apply Nat.ltb_ge in L. split; [exact A|].
      split; [intro H; contradiction|intro H; lia].
  - intros env envs r A0 Len St. simpl in Len.
    assert (Len' : attempts r + S (List.length envs) = S (max_attempts r)) by lia.
    destruct (catch_up_runs_frozen env envs r St Len') as [Last Before].
    assert (E : List.length envs = max_attempts r) by lia.
    rewrite E in Last, Before. split; [exact Last|exact Before].
Qed.

(** C9: in [KeepUp], a [BlockSync{hash, fetch_execution_state}] instruction
    registers [hash] forwarding the flag, and then the crank panics at
    [todo!()] instead of scheduling another crank. *)
Theorem keep_up_block_sync_panics (env : Env) (r : MainReactor)
    (h : BlockHash) (f : bool) :
  state r = KeepUp ->
  sync_instruction env (StartingWithHash 0%N) = BlockSync h f ->
  crank env r =
    (CrankPanic "not yet implemented",
     register_block_by_hash r h f (sync_leap_simultaneous_peer_requests r)).
Proof.
  intros K S. unfold crank. rewrite K, S. reflexivity.
Qed.

(** C10: when the catch-up evaluator asks the accumulator and gets
    [CaughtUp] while storage has no highest block, it returns
    [Shutdown("can't be caught up with no block in the block store")]. *)
Theorem catch_up_caught_up_without_tip (env : Env) (r r1 : MainReactor)
    (sw : StartingWith) :
  idleness_guard env r = GuardContinue r1 ->
  determine_starting_with env r1 = inr sw ->
  sync_instruction env sw = SyncCaughtUp ->
  highest_block env = None ->
  catch_up_instructions env r =
    (CatchUpShutdown "can't be caught up with no block in the block store", r1).
Proof.
  intros G D S Hb. unfold catch_up_instructions. rewrite G, D, S, Hb. reflexivity.
Qed.

(** ** Concrete runs of the reactor *)

Section ReactorRuns.
Local Open Scope N_scope.

(** Collaborator answers for one crank: no local tip, the trusted hash is
    not in storage, the accumulator answers [si]. *)
Definition demo_env (si : SyncInstruction) (lp : option Timestamp) (t : Timestamp) : Env :=
  mkEnv t lp None (fun _ => Ok None) (fun _ => si) (fun _ => []) false
    (fun _ => None) (Ok []) (fun _ => Ok []).

(** A reactor trusting hash 3, with [max_attempts = 2], a tolerance of one
    second and a fan-out of 4. *)
Definition demo_reactor (s : ReactorState) : MainReactor :=
  mkMainReactor s 0 2 1000 (Some 3) (ActivationGenesis 0) 4 [].

(** C7: the instruction [BlockSync{9, false}] is registered with [false]. *)
Lemma catch_up_block_sync_flag_counterexample :
  sync_instruction (demo_env (BlockSync 9 false) None 5000) (StartingWithHash 3)
    = BlockSync 9 false /\
  catch_up_instructions (demo_env (BlockSync 9 false) None 5000) (demo_reactor CatchUp)
    = (CheckSoon "block_synchronizer is initialized",
       mkMainReactor CatchUp 0 2 1000 (Some 3) (ActivationGenesis 0) 4 [(9, false, 4)]) /\
  ~ In (9, true, 4)
      (registered_blocks (snd (catch_up_instructions
         (demo_env (BlockSync 9 false) None 5000) (demo_reactor CatchUp)))).
Proof.
  split; [reflexivity|split; [reflexivity|]].
  vm_compute. intros [H|H]; [discriminate H|exact H].
Qed.

Lemma catch_up_block_sync_forwards_flag_witness :
  catch_up_instructions (demo_env (BlockSync 9 false) None 5000) (demo_reactor CatchUp)
    = (CheckSoon "block_synchronizer is initialized",
       register_block_by_hash (demo_reactor CatchUp) 9 false 4).
Proof.
  exact (catch_up_block_sync_forwards_flag (demo_env (BlockSync 9 false) None 5000)
           (demo_reactor CatchUp) (demo_reactor CatchUp) (StartingWithHash 3) 9 false
           eq_refl eq_refl eq_refl).
Defined.

(** Three cranks with progress frozen at time 0 while the clock reads 5s. *)
Lemma catch_up_idleness_guard_witness :
  catch_up_instructions (demo_env Leap (Some 4500) 5000) (demo_reactor CatchUp)
    = (CheckLater "block_synchronizer is making progress" 10,
       set_attempts (demo_reactor CatchUp) 0) /\
  fst (catch_up_runs [demo_env (BlockSync 9 true) (Some 0) 5000;
                      demo_env (BlockSync 9 true) (Some 0) 6000;
                      demo_env (BlockSync 9 true) (Some 0) 7000]
                     (demo_reactor CatchUp))
    = [CheckSoon "block_synchronizer is initialized";
       CheckSoon "block_synchronizer is initialized";
       CatchUpShutdown idle_shutdown_msg] /\
  nth_error (fst (catch_up_runs [demo_env (BlockSync 9 true) (Some 0) 5000;
                                 demo_env (BlockSync 9 true) (Some 0) 6000;
                                 demo_env (BlockSync 9 true) (Some 0) 7000]
                                (demo_reactor CatchUp))) 2
    = Some (CatchUpShutdown idle_shutdown_msg).
Proof.
  split; [|split; [reflexivity|]].
  - exact (proj1 catch_up_idleness_guard (demo_env Leap (Some 4500) 5000)
             (demo_reactor CatchUp) 4500 eq_refl ltac:(vm_compute; discriminate)).
  - refine (proj1 (proj2 (proj2 catch_up_idleness_guard)
              (demo_env (BlockSync 9 true) (Some 0) 5000)
              [demo_env (BlockSync 9 true) (Some 0) 6000;
               demo_env (BlockSync 9 true) (Some 0) 7000]
              (demo_reactor CatchUp) eq_refl eq_refl _)).
    repeat constructor; exists 0; split; reflexivity.
Defined.

Lemma keep_up_block_sync_panics_witness :
  crank (demo_env (BlockSync 9 true) None 5000) (demo_reactor KeepUp)
    = (CrankPanic "not yet implemented",
       register_block_by_hash (demo_reactor KeepUp) 9 true 4).
Proof.
  exact (keep_up_block_sync_panics (demo_env (BlockSync 9 true) None 5000)
           (demo_reactor KeepUp) 9 true eq_refl eq_refl).
Defined.

Lemma catch_up_caught_up_without_tip_witness :
  catch_up_instructions (demo_env SyncCaughtUp None 5000) (demo_reactor CatchUp)
    = (CatchUpShutdown "can't be caught up with no block in the block store",
       demo_reactor CatchUp).
Proof.
  exact (catch_up_caught_up_without_tip (demo_env SyncCaughtUp None 5000)
           (demo_reactor CatchUp) (demo_reactor CatchUp) (StartingWithHash 3)
           eq_refl eq_refl eq_refl eq_refl).
Defined.

End ReactorRuns.

(** * Further properties of the block acceptor *)

Section AcceptorExtras.

Context (validate : BlockAdded -> bool).
Context (is_verified : FinalitySignature -> bool).
Context (has_sufficient_weight : EraValidatorWeights -> list PublicKey -> SignatureWeight).

Lemma map_get_insert_other k k' v (m : SigMap) :
  k' <> k -> map_get k' (map_insert k v m) = map_get k' m.
Proof.
  intro Hne. induction m as [|[k0 v0] m IH]; simpl.
  - destruct (N.eqb_spec k' k); [contradiction|reflexivity].
  - destruct (N.compare k k0) eqn:C; simpl.
    + apply N.compare_eq_iff in C. subst k0.
      destruct (N.eqb_spec k' k); [contradiction|reflexivity].
    + destruct (N.eqb_spec k' k); [contradiction|reflexivity].
    + destruct (N.eqb k' k0); [reflexivity|exact IH].
Qed.

Lemma map_insert_keys k' k v (m : SigMap) :
  In k' (map_keys (map_insert k v m)) -> k' = k \/ In k' (map_keys m).
Proof.
  induction m as [|[k0 v0] m IH]; simpl.
  - intros [H|[]]; auto.
  - destruct (N.compare k k0); simpl; intros [H|H]; auto.
    destruct (IH H); auto.
Qed.

Lemma map_insert_sorted k v (m : SigMap) :
  StronglySorted N.lt (map_keys m) -> StronglySorted N.lt (map_keys (map_insert k v m)).
Proof.
  induction m as [|[k0 v0] m IH]; simpl; intro S.
  - repeat constructor.
  - inversion S as [|? ? S' F]; subst.
    destruct (N.compare k k0) eqn:C; simpl.
    + apply N.compare_eq_iff in C. subst. constructor; assumption.
    + apply (proj1 (N.compare_lt_iff k k0)) in C. constructor; [constructor; assumption|].
      constructor; [exact C|].
      eapply Forall_impl; [|exact F]. simpl. intros x Hx. lia.
    + apply (proj1 (N.compare_gt_iff k k0)) in C. constructor; [exact (IH S')|].
      apply Forall_forall. intros x Hx.
      destruct (map_insert_keys x k v m Hx) as [->|Hin]; [exact C|].
      exact (proj1 (Forall_forall _ _) F x Hin).
Qed.

Lemma map_retain_sorted f (m : SigMap) :
  StronglySorted N.lt (map_keys m) -> StronglySorted N.lt (map_keys (map_retain f m)).
Proof.
  induction m as [|[k0 v0] m IH]; simpl; intro S; [constructor|].
  inversion S as [|? ? S' F]; subst.
  unfold map_retain in *. simpl.
  destruct (f k0 v0); simpl; [|exact (IH S')].
  constructor; [exact (IH S')|].
  apply Forall_forall. intros x Hx.
  unfold map_keys in Hx. apply in_map_iff in Hx as [[kx vx] [<- Hin]].
  apply filter_In in Hin as [Hin _].
  apply (proj1 (Forall_forall _ _) F). apply in_map_iff. exists (kx, vx). auto.
Qed.

(** The latch is set only on an acceptor holding a block. *)
Definition latch_needs_block (a : BlockGossipAcceptor) : Prop :=
  can_execute_latch a = true -> block_added a <> None.

Lemma can_execute_keeps_latch_needs_block a w :
  latch_needs_block a -> latch_needs_block (fst (can_execute has_sufficient_weight a w)).
Proof.
  unfold latch_needs_block. intros H Lt.
  rewrite (proj1 (can_execute_shape has_sufficient_weight a w)) in Lt |- *.
  cbn [can_execute_latch set_latch block_added] in *.
  destruct (block_added a) eqn:B; [discriminate|]. apply H.
  unfold can_execute in Lt. rewrite B in Lt.
  destruct (can_execute_latch a); simpl in Lt; [reflexivity|discriminate].
Qed.

Lemma apply_op_keeps_latch_needs_block a op :
  latch_needs_block a ->
  latch_needs_block (fst (apply_op validate has_sufficient_weight a op)).
Proof.
  intro H. destruct op as [fs w|ba w|w]; simpl.
  - destruct (register_signature_cases has_sufficient_weight a fs w)
      as [[ba [_ [_ R]]]|[a1 [could [a3 [now [_ [E1 [E3 R]]]]]]]];
      rewrite R; [exact H|].
    pose proof (can_execute_keeps_latch_needs_block a w H) as H1.
    rewrite E1 in H1.
    pose proof (can_execute_keeps_latch_needs_block
      (set_signatures a1 (map_insert (fs_public_key fs) fs (signatures a1))) w H1) as H3.
    rewrite E3 in H3. exact H3.
  - destruct (register_block_cases validate has_sufficient_weight a ba w)
      as [[_ R]|[[_ [_ R]]|[a1 [could [a3 [now [_ [_ [E1 [E3 R]]]]]]]]]];
      rewrite R; try exact H.
    assert (H2 : latch_needs_block (set_block_added a1 (Some ba)))
      by (intros _; discriminate).
    pose proof (can_execute_keeps_latch_needs_block _ w H2) as H3.
    rewrite E3 in H3. exact H3.
  - pose proof (can_execute_keeps_latch_needs_block a w H) as H1.
    destruct (can_execute has_sufficient_weight a w). exact H1.
Qed.

(** X1: a call that returns an error leaves the acceptor exactly as it was. *)
Theorem acceptor_error_leaves_state (a : BlockGossipAcceptor) (op : AcceptorOp)
    (e : Error) :
  snd (apply_op validate has_sufficient_weight a op) = OutResult (Err e) ->
  fst (apply_op validate has_sufficient_weight a op) = a.
Proof.
  destruct op as [fs w|ba w|w]; simpl.
  - destruct (register_signature_cases has_sufficient_weight a fs w)
      as [[ba [_ [_ R]]]|[a1 [could [a3 [now [_ [E1 [E3 R]]]]]]]];
      rewrite R; simpl; [reflexivity|discriminate].
  - destruct (register_block_cases validate has_sufficient_weight a ba w)
      as [[_ R]|[[_ [_ R]]|[a1 [could [a3 [now [_ [_ [E1 [E3 R]]]]]]]]]];
      rewrite R; simpl; try reflexivity; discriminate.
  - destruct (can_execute has_sufficient_weight a w); discriminate.
Qed.

(** X2: no operation changes [block_hash] or [era_id], and once a block is
    held it stays the same block. *)
Theorem run_ops_fixed_fields (a : BlockGossipAcceptor) (ops : list AcceptorOp) :
  let a' := fst (run_ops validate has_sufficient_weight a ops) in
  block_hash a' = block_hash a /\ era_id a' = era_id a /\
  (forall ba, block_added a = Some ba -> block_added a' = Some ba).
Proof.
  revert a. induction ops as [|op ops IH]; intro a; simpl; [auto|].
  destruct (apply_op validate has_sufficient_weight a op) as [a1 o] eqn:E.
  destruct (run_ops validate has_sufficient_weight a1 ops) as [a2 os] eqn:E2.
  destruct (IH a1) as [H1 [H2 H3]]. rewrite E2 in H1, H2, H3. simpl in *.
  destruct (apply_op_fields validate has_sufficient_weight a op)
    as [F1 [F2 [[B _]|[[fs [w [_ [_ [B _]]]]]|[ba' [w [_ [B0 [B _]]]]]]]]];
    rewrite E in F1, F2, B; simpl in F1, F2, B;
    (split; [congruence|split; [congruence|]]); intros ba Hb.
  - apply H3. congruence.
  - apply H3. congruence.
  - congruence.
Qed.

(** X3: for an acceptor built by [new_from_block_added], after any
    operations [block_era_and_height] reports the block's own era and height. *)
Theorem block_era_and_height_from_block (ba : BlockAdded) (a : BlockGossipAcceptor)
    (ops : list AcceptorOp) :
  new_from_block_added validate ba = Ok a ->
  block_era_and_height (fst (run_ops validate has_sufficient_weight a ops))
    = Some (block_era_id (block ba), block_height (block ba)).
Proof.
  intro E. unfold new_from_block_added in E.
  destruct (validate ba); simpl in E; inversion E; subst.
  destruct (run_ops_fixed_fields
    (mkAcceptor (block_hash_of (block ba)) (block_era_id (block ba)) (Some ba) [] false)
    ops) as [_ [Er Bl]].
  unfold block_era_and_height. rewrite (Bl ba eq_refl), Er. reflexivity.
Qed.

Lemma reachable_keys_sorted_gen (a : BlockGossipAcceptor) :
  reachable validate is_verified has_sufficient_weight a ->
  StronglySorted N.lt (map_keys (signatures a)).
Proof.
  induction 1 as [ba0 a E|fs w a E|a op R IH].
  - unfold new_from_block_added in E.
    destruct (validate ba0); simpl in E; inversion E; subst. constructor.
  - unfold new_from_finality_signature in E.
    destruct (is_verified fs); simpl in E; [|discriminate].
    destruct w as [weights|]; [destruct (negb _)|]; inversion E; subst;
      repeat constructor.
  - destruct (apply_op_fields validate has_sufficient_weight a op)
      as [_ [_ [[_ S]|[[fs [w [_ [_ [_ S]]]]]|[ba' [w [_ [_ [_ S]]]]]]]]];
      rewrite S.
    + exact IH.
    + apply map_insert_sorted. exact IH.
    + apply map_retain_sorted. exact IH.
Qed.


(** X5: an accepted [register_signature] stores the signature under its
    public key, replacing any earlier one from that key, and leaves the
    entries of every other key as they were. *)
Theorem register_signature_replaces (a : BlockGossipAcceptor) (fs : FinalitySignature)
    (w : option EraValidatorWeights) (b : bool) :
  snd (register_signature has_sufficient_weight a fs w) = Ok b ->
  let a' := fst (register_signature has_sufficient_weight a fs w) in
  map_get (fs_public_key fs) (signatures a') = Some fs /\
  (forall k, k <> fs_public_key fs -> map_get k (signatures a') = map_get k (signatures a)).
Proof.
  destruct (register_signature_cases has_sufficient_weight a fs w)
    as [[ba [_ [_ R]]]|[a1 [could [a3 [now [_ [E1 [E3 R]]]]]]]];
    rewrite R; simpl; [discriminate|].
  intros _.
  pose proof (proj1 (can_execute_shape has_sufficient_weight a w)) as F1.
  rewrite E1 in F1. simpl in F1.
  pose proof (proj1 (can_execute_shape has_sufficient_weight
    (set_signatures a1 (map_insert (fs_public_key fs) fs (signatures a1))) w)) as F3.
  rewrite E3 in F3. simpl in F3. subst a3 a1. simpl.
  split; [apply map_get_insert|]. intros k Hk. apply map_get_insert_other. exact Hk.
Qed.


(** X7: in every reachable state, a set latch implies a held block. *)
Theorem reachable_latch_implies_block (a : BlockGossipAcceptor) :
  reachable validate is_verified has_sufficient_weight a ->
  can_execute_latch a = true -> block_added a <> None.
Proof.
  intro R. change (latch_needs_block a).
  induction R as [ba0 a E|fs w a E|a op R IH].
  - unfold new_from_block_added in E.
    destruct (validate ba0); simpl in E; inversion E; subst. discriminate.
  - unfold new_from_finality_signature in E.
    destruct (is_verified fs); simpl in E; [|discriminate].
    destruct w as [weights|]; [destruct (negb _)|]; inversion E; subst; discriminate.
  - apply apply_op_keeps_latch_needs_block. exact IH.
Qed.


Lemma map_get_retain_sorted f k (m : SigMap) :
  StronglySorted N.lt (map_keys m) ->
  map_get k (map_retain f m) =
    match map_get k m with
    | Some v => if f k v then Some v else None
    | None => None
    end.
Proof.
  induction m as [|[k0 v0] m IH]; intro S; [reflexivity|].
  inversion S as [|? ? S' F]; subst.
  unfold map_retain in *. simpl.
  assert (Absent : N.eqb k k0 = true -> map_get k m = None).
  { intro E. apply N.eqb_eq in E. subst k0.
    clear IH S. induction m as [|[k1 v1] m IH1]; [reflexivity|].
    simpl in F. inversion F as [|? ? L F']; subst.
    inversion S' as [|? ? S'' F'']; subst. simpl.
    destruct (N.eqb_spec k k1); [lia|].
    apply IH1; [exact S''|exact F']. }
  destruct (f k0 v0) eqn:Fk; simpl.
  - destruct (N.eqb k k0) eqn:E; [|exact (IH S')].
    apply N.eqb_eq in E. subst k0. rewrite Fk. reflexivity.
  - rewrite (IH S'). destruct (N.eqb k k0) eqn:E; [|reflexivity].
    rewrite (Absent eq_refl). apply N.eqb_eq in E. subst k0. rewrite Fk. reflexivity.
Qed.

(** X9: a successful [register_block] on a reachable acceptor without a
    block stores the block and keeps, for each validator, its signature
    exactly when that signature is of the block's era. *)
Theorem register_block_keeps_block_era (a : BlockGossipAcceptor) (ba : BlockAdded)
    (w : option EraValidatorWeights) (b : bool) :
  reachable validate is_verified has_sufficient_weight a ->
  block_added a = None ->
  snd (register_block validate has_sufficient_weight a ba w) = Ok b ->
  let a' := fst (register_block validate has_sufficient_weight a ba w) in
  block_added a' = Some ba /\
  forall k, map_get k (signatures a') =
    match map_get k (signatures a) with
    | Some fs => if N.eqb (fs_era_id fs) (block_era_id (block ba)) then Some fs else None
    | None => None
    end.
Proof.
  intros R B Hok. cbv zeta.
  destruct (register_block_cases validate has_sufficient_weight a ba w)
    as [[Hne _]|[[_ [_ Rb]]|[a1 [could [a3 [now [_ [_ [E1 [E3 Rb]]]]]]]]]].
  - contradiction.
  - rewrite Rb in Hok. discriminate.
  - rewrite Rb. simpl.
    pose proof (proj1 (can_execute_shape has_sufficient_weight (set_signatures a
      (map_retain (fun _ fs => N.eqb (fs_era_id fs) (block_era_id (block ba)))
         (signatures a))) w)) as F1.
    rewrite E1 in F1. simpl in F1.
    pose proof (proj1 (can_execute_shape has_sufficient_weight
      (set_block_added a1 (Some ba)) w)) as F3.
    rewrite E3 in F3. simpl in F3. subst a3 a1. simpl.
    split; [reflexivity|]. intro k.
    apply map_get_retain_sorted. exact (reachable_keys_sorted_gen a R).
Qed.

End AcceptorExtras.

Section AcceptorExtraRuns.
Local Open Scope N_scope.

Lemma acceptor_error_leaves_state_witness :
  snd (apply_op demo_validate spec_has_sufficient_weight demo_acceptor_signed
         (OpRegisterSignature (demo_sig 3 8 1) (Some demo_weights)))
    = OutResult (Err (FinalitySignatureWithWrongEra (demo_sig 3 8 1) 7)) /\
  fst (apply_op demo_validate spec_has_sufficient_weight demo_acceptor_signed
         (OpRegisterSignature (demo_sig 3 8 1) (Some demo_weights)))
    = demo_acceptor_signed.
Proof.
  split; [reflexivity|].
  exact (acceptor_error_leaves_state demo_validate spec_has_sufficient_weight
           demo_acceptor_signed
           (OpRegisterSignature (demo_sig 3 8 1) (Some demo_weights))
           (FinalitySignatureWithWrongEra (demo_sig 3 8 1) 7) eq_refl).
Defined.

Lemma block_era_and_height_from_block_witness :
  new_from_block_added demo_validate (demo_block 1 7) = Ok demo_acceptor_from_block /\
  block_era_and_height
    (fst (run_ops demo_validate spec_has_sufficient_weight demo_acceptor_from_block
            [OpRegisterSignature (demo_sig 1 7 1) None;
             OpRegisterBlock (demo_block 2 9) (Some demo_weights)]))
    = Some (7, 100).
Proof.
  split; [reflexivity|].
  exact (block_era_and_height_from_block demo_validate spec_has_sufficient_weight
           (demo_block 1 7) demo_acceptor_from_block
           [OpRegisterSignature (demo_sig 1 7 1) None;
            OpRegisterBlock (demo_block 2 9) (Some demo_weights)] eq_refl).
Defined.


Lemma register_signature_replaces_witness :
  snd (register_signature spec_has_sufficient_weight demo_acceptor_signed
         (demo_sig 2 7 5) None) = Ok false /\
  map_get 2 (signatures (fst (register_signature spec_has_sufficient_weight
                                demo_acceptor_signed (demo_sig 2 7 5) None)))
    = Some (demo_sig 2 7 5) /\
  map_get 1 (signatures (fst (register_signature spec_has_sufficient_weight
                                demo_acceptor_signed (demo_sig 2 7 5) None)))
    = map_get 1 (signatures demo_acceptor_signed).
Proof.
  split; [reflexivity|].
  destruct (register_signature_replaces spec_has_sufficient_weight demo_acceptor_signed
              (demo_sig 2 7 5) None false eq_refl) as [H1 H2].
  split; [exact H1|]. apply H2. discriminate.
Defined.

Lemma reachable_latch_implies_block_witness :
  let a := fst (apply_op demo_validate spec_has_sufficient_weight demo_acceptor_signed
                  (OpCanExecute (Some demo_weights))) in
  reachable demo_validate demo_is_verified spec_has_sufficient_weight a /\
  can_execute_latch a = true /\ block_added a <> None.
Proof.
  intro a.
  assert (R : reachable demo_validate demo_is_verified spec_has_sufficient_weight a).
  { apply reachable_op. change demo_acceptor_signed with
    (fst (apply_op demo_validate spec_has_sufficient_weight
       (fst (apply_op demo_validate spec_has_sufficient_weight demo_acceptor_from_block
               (OpRegisterSignature (demo_sig 1 7 1) None)))
       (OpRegisterSignature (demo_sig 2 7 1) None))).
    apply reachable_op. apply reachable_op.
    apply (reachable_block_added _ _ _ (demo_block 1 7)). reflexivity. }
  split; [exact R|split; [reflexivity|]].
  exact (reachable_latch_implies_block demo_validate demo_is_verified
           spec_has_sufficient_weight a R eq_refl).
Defined.


Lemma register_block_keeps_block_era_witness :
  let a := fst (apply_op demo_validate spec_has_sufficient_weight demo_acceptor_from_sig
                  (OpRegisterSignature (demo_sig 2 6 1) None)) in
  reachable demo_validate demo_is_verified spec_has_sufficient_weight a /\
  block_added a = None /\
  snd (register_block demo_validate spec_has_sufficient_weight a (demo_block 1 6) None)
    = Ok false /\
  map_get 2 (signatures (fst (register_block demo_validate spec_has_sufficient_weight a
                                (demo_block 1 6) None))) = Some (demo_sig 2 6 1) /\
  map_get 4 (signatures (fst (register_block demo_validate spec_has_sufficient_weight a
                                (demo_block 1 6) None))) = None.
Proof.
  intro a.
  assert (R : reachable demo_validate demo_is_verified spec_has_sufficient_weight a).
  { apply reachable_op.
    apply (reachable_finality_signature _ _ _ (demo_sig 4 5 1) None). reflexivity. }
  destruct (register_block_keeps_block_era demo_validate demo_is_verified
              spec_has_sufficient_weight a (demo_block 1 6) None false R eq_refl eq_refl)
    as [_ G].
  split; [exact R|split; [reflexivity|split; [reflexivity|]]].
  rewrite (G 2), (G 4). split; reflexivity.
Defined.

End AcceptorExtraRuns.

(** * Further properties of the catch-up evaluator and the crank *)

Ltac destruct_matches_eqn :=
  repeat match goal with
         | |- context [match ?x with _ => _ end] =>
             lazymatch x with
             | context [match _ with _ => _ end] => fail
             | _ => let E := fresh "E" in destruct x eqn:E
             end
         end.

(** The configuration fields of the reactor, which no crank writes. *)
Definition same_config (r r' : MainReactor) : Prop :=
  max_attempts r' = max_attempts r /\ idle_tolerances r' = idle_tolerances r /\
  trusted_hash r' = trusted_hash r /\ activation_point r' = activation_point r /\
  sync_leap_simultaneous_peer_requests r' = sync_leap_simultaneous_peer_requests r.

(** An effect that keeps the reactor going or stops it. *)
Definition reschedules_or_stops (e : Effect) : bool :=
  match e with
  | Immediately ReactorCrank => true
  | AfterSecs _ ReactorCrank => true
  | Immediately (Shutdown _) => true
  | _ => false
  end.

Lemma catch_up_frame_gen (env : Env) (r : MainReactor) :
  let r' := snd (catch_up_instructions env r) in
  state r' = state r /\ same_config r r' /\
  exists l, registered_blocks r' = app (registered_blocks r) l /\ (List.length l <= 1)%nat.
Proof.
  cbv zeta.
  unfold catch_up_instructions, idleness_guard, determine_starting_with, same_config.
  destruct_matches_eqn; simpl in *;
    repeat split; try reflexivity; try congruence;
    first [ exists nil; rewrite app_nil_r; split; [reflexivity|simpl; lia]
          | eexists (cons _ nil); split; [reflexivity|simpl; lia] ].
Qed.

Lemma catch_up_commit_genesis_pre (env : Env) (r : MainReactor) :
  fst (catch_up_instructions env r) = CommitGenesis ->
  trusted_hash r = None /\ highest_block env = None /\
  exists ts, activation_point r = ActivationGenesis ts /\ (now env <= ts)%N.
Proof.
  unfold catch_up_instructions, idleness_guard, determine_starting_with.
  destruct_matches_eqn; simpl; try discriminate; intros _;
    simpl in *; (split; [first [assumption|reflexivity]|]);
    (split; [first [assumption|reflexivity]|]);
    (eexists; split; [first [eassumption|reflexivity]|apply N.leb_le; eassumption]).
Qed.

(** X10: [catch_up_instructions] writes no reactor field except [attempts]
    and the list of block registrations, to which it appends at most one
    entry. *)
Theorem catch_up_instructions_frame (env : Env) (r : MainReactor) :
  let r' := snd (catch_up_instructions env r) in
  state r' = state r /\ same_config r r' /\
  exists l, registered_blocks r' = app (registered_blocks r) l /\ (List.length l <= 1)%nat.
Proof. exact (catch_up_frame_gen env r). Qed.

(** X11: the states a crank can move to: [Initialize] to itself or
    [CatchUp]; [CatchUp] to itself or [KeepUp]; [KeepUp] to itself,
    [CatchUp] or [Validate]; [Validate] to itself or [KeepUp]. In particular
    no crank returns to [Initialize]. *)
Theorem crank_state_transitions (env : Env) (r : MainReactor) :
  let s' := state (snd (crank env r)) in
  match state r with
  | Initialize => s' = Initialize \/ s' = CatchUp
  | CatchUp => s' = CatchUp \/ s' = KeepUp
  | KeepUp => s' = KeepUp \/ s' = CatchUp \/ s' = Validate
  | Validate => s' = Validate \/ s' = KeepUp
  end.
Proof.
  unfold crank. destruct (state r) eqn:S.
  - destruct (first_initialization env initialized_components); simpl; auto.
  - pose proof (proj1 (catch_up_frame_gen env r)) as F.
    destruct (catch_up_instructions env r) as [i r1]. simpl in F.
    rewrite S in F.
    destruct i; simpl; auto;
      try (destruct (commit_genesis_result env); simpl; auto);
      try (destruct (commit_upgrade_result env h); simpl; auto).
  - destruct (sync_instruction env (StartingWithHash 0%N)); simpl; auto;
      try (rewrite S; auto).
    destruct (is_active_validator env); simpl; auto.
  - destruct (is_active_validator env); simpl; auto.
Qed.

(** X12: a crank panics exactly when the reactor is in [KeepUp] and the
    accumulator answers [BlockSync] for the default hash. *)
Theorem crank_panics_iff (env : Env) (r : MainReactor) :
  (exists msg, fst (crank env r) = CrankPanic msg) <->
  state r = KeepUp /\ exists h f, sync_instruction env (StartingWithHash 0%N) = BlockSync h f.
Proof.
  unfold crank. destruct (state r).
  - destruct (first_initialization env initialized_components); simpl;
      split; [intros [m H]; discriminate| intros [H _]; discriminate
             |intros [m H]; discriminate| intros [H _]; discriminate].
  - destruct (catch_up_instructions env r) as [i r1].
    split; [|intros [H _]; discriminate].
    intros [m H].
    destruct i; simpl in H; try discriminate;
      try (destruct (commit_genesis_result env); discriminate);
      destruct (commit_upgrade_result env h); discriminate.
  - destruct (sync_instruction env (StartingWithHash 0%N)) as [|h f| |] eqn:E; simpl;
      split; try (intros [m H]; discriminate);
      try (intros [_ [h' [f' H]]]; discriminate).
    + intros _. split; [reflexivity|]. exists h, f. reflexivity.
    + intros _. eexists. reflexivity.
    + destruct (is_active_validator env); intros [m H]; discriminate.
  - split; [|intros [H _]; discriminate].
    destruct (is_active_validator env); intros [m H]; discriminate.
Qed.

(** X13: outside [Initialize], every crank that does not panic ends its
    effects with a crank, immediate or after a delay, or an immediate
    shutdown: the reactor never stalls silently. *)
Theorem crank_reschedules (env : Env) (r : MainReactor) (effects : Effects) :
  state r <> Initialize ->
  fst (crank env r) = CrankEffects effects ->
  exists pre e, effects = app pre [e] /\ reschedules_or_stops e = true.
Proof.
  intros NI. unfold crank. destruct (state r); [contradiction| | |].
  - destruct (catch_up_instructions env r) as [i r1].
    destruct i;
      [| | | | | destruct (commit_genesis_result env)
               | destruct (commit_upgrade_result env h)];
      simpl; intro H; inversion H; subst;
      first [ exists nil; eexists; split; reflexivity
            | eexists; eexists; split; reflexivity ].
  - destruct (sync_instruction env (StartingWithHash 0%N));
      [| |idtac|destruct (is_active_validator env)];
      simpl; intro H; try discriminate; inversion H; subst;
      exists nil; eexists; split; reflexivity.
  - destruct (is_active_validator env); simpl; intro H; inversion H; subst;
      exists nil; eexists; split; reflexivity.
Qed.

(** X14: the catch-up evaluator asks to commit genesis only when no trusted
    hash is configured, storage has no highest block, the activation point
    is a genesis timestamp and the clock has not passed it. *)
Theorem catch_up_commit_genesis_conditions (env : Env) (r : MainReactor) :
  fst (catch_up_instructions env r) = CommitGenesis ->
  trusted_hash r = None /\ highest_block env = None /\
  exists ts, activation_point r = ActivationGenesis ts /\ (now env <= ts)%N.
Proof. exact (catch_up_commit_genesis_pre env r). Qed.

(** X15: when the catch-up evaluator asks to commit genesis, [commit_genesis]
    never fails for a missing genesis timestamp: a successful runtime commit
    gives the pre-state at height 0 on the post-state hash with zero parent,
    and a system block of era 0, height 0, at the genesis timestamp; a
    runtime error is reported with the prefix "failed to commit genesis: ". *)
Theorem commit_genesis_after_catch_up (env : Env) (r : MainReactor) :
  fst (catch_up_instructions env r) = CommitGenesis ->
  exists ts, activation_point r = ActivationGenesis ts /\
  (forall psh, commit_genesis (Ok psh) (activation_point r) =
     Ok (mkExecutionPreState 0%N psh 0%N 0%N,
         mkFinalizedBlock [] (Some tt) ts 0%N 0%N ProposerSystem)) /\
  (forall err, commit_genesis (Err err) (activation_point r) =
     Err ("failed to commit genesis: " ++ err)).
Proof.
  intro H. destruct (catch_up_commit_genesis_pre env r H) as [_ [_ [ts [A _]]]].
  exists ts. rewrite A. repeat split.
Qed.

Lemma idleness_guard_continue_frame (env : Env) (r r1 : MainReactor) :
  idleness_guard env r = GuardContinue r1 ->
  state r1 = state r /\ same_config r r1 /\ registered_blocks r1 = registered_blocks r.
Proof.
  unfold idleness_guard, same_config.
  destruct (last_progress env); [destruct (N.leb _ _); [discriminate|]|];
    [destruct (Nat.ltb _ _); [discriminate|]|];
    intro H; inversion H; subst; repeat split.
Qed.

(** X16: when a trusted hash is configured, its block is in storage, a local
    tip exists and the accumulator answers [Leap], the leap is attempted from
    the trusted hash if the trusted block is strictly higher than the tip,
    and otherwise from the tip (so a tie leaps from the tip), asking the
    random peer sample of the configured size. *)
Theorem catch_up_leap_start (env : Env) (r r1 : MainReactor) (th : BlockHash)
    (tb b : Block) :
  idleness_guard env r = GuardContinue r1 ->
  trusted_hash r = Some th ->
  read_block env th = Ok (Some tb) ->
  highest_block env = Some b ->
  (forall sw, sync_instruction env sw = Leap) ->
  catch_up_instructions env r =
    (Do [Immediately (AttemptLeap
           (if N.ltb (block_height b) (block_height tb) then th else block_hash_of b)
           (peers_random_vec env (sync_leap_simultaneous_peer_requests r)))], r1).
Proof.
  intros G T Rd Hb L.
  destruct (idleness_guard_continue_frame env r r1 G) as [_ [[_ [_ [T1 [_ P1]]]] _]].
  unfold catch_up_instructions, determine_starting_with. rewrite G, T1, T, Rd, Hb, P1.
  destruct (N.ltb (block_height b) (block_height tb)); rewrite L; reflexivity.
Qed.

Section ReactorExtraRuns.
Local Open Scope N_scope.

(** A reactor without trusted hash whose chain starts at 9s. *)
Definition demo_genesis_reactor : MainReactor :=
  mkMainReactor CatchUp 0 2 1000 None (ActivationGenesis 9000) 4 [].

Lemma crank_reschedules_witness :
  fst (crank (demo_env Leap None 5000) (demo_reactor CatchUp))
    = CrankEffects [Immediately (AttemptLeap 3 []); AfterSecs 5 ReactorCrank] /\
  exists pre e, [Immediately (AttemptLeap 3 []); AfterSecs 5 ReactorCrank] = app pre [e] /\
    reschedules_or_stops e = true.
Proof.
  split; [reflexivity|].
  exact (crank_reschedules (demo_env Leap None 5000) (demo_reactor CatchUp)
           [Immediately (AttemptLeap 3 []); AfterSecs 5 ReactorCrank]
           ltac:(discriminate) eq_refl).
Defined.

Lemma catch_up_commit_genesis_conditions_witness :
  fst (catch_up_instructions (demo_env Leap None 5000) demo_genesis_reactor) = CommitGenesis /\
  trusted_hash demo_genesis_reactor = None /\ highest_block (demo_env Leap None 5000) = None /\
  exists ts, activation_point demo_genesis_reactor = ActivationGenesis ts /\
    (now (demo_env Leap None 5000) <= ts)%N.
Proof.
  split; [reflexivity|].
  exact (catch_up_commit_genesis_conditions (demo_env Leap None 5000) demo_genesis_reactor
           eq_refl).
Defined.

Lemma commit_genesis_after_catch_up_witness :
  fst (catch_up_instructions (demo_env Leap None 5000) demo_genesis_reactor) = CommitGenesis /\
  commit_genesis (Ok 42) (activation_point demo_genesis_reactor) =
    Ok (mkExecutionPreState 0 42 0 0, mkFinalizedBlock [] (Some tt) 9000 0 0 ProposerSystem).
Proof.
  split; [reflexivity|].
  destruct (commit_genesis_after_catch_up (demo_env Leap None 5000) demo_genesis_reactor
              eq_refl) as [ts [A [H _]]].
  simpl in A. inversion A; subst. exact (H 42).
Defined.

Definition demo_block_at (hash : BlockHash) (height : N) : Block :=
  mkBlock hash (mkBlockHeader 7 height 7).

(** Trusted hash 3 is stored at height 40; the local tip has hash 8. *)
Definition demo_leap_env (tip_height : N) : Env :=
  mkEnv 5000 None (Some (demo_block_at 8 tip_height))
    (fun h => if N.eqb h 3 then Ok (Some (demo_block_at 3 40)) else Ok None)
    (fun _ => Leap) (fun n => [n]) false (fun _ => None) (Ok []) (fun _ => Ok []).

Lemma catch_up_leap_start_witness :
  fst (catch_up_instructions (demo_leap_env 30) (demo_reactor CatchUp))
    = Do [Immediately (AttemptLeap 3 [4])] /\
  fst (catch_up_instructions (demo_leap_env 40) (demo_reactor CatchUp))
    = Do [Immediately (AttemptLeap 8 [4])].
Proof.
  split.
  - rewrite (catch_up_leap_start (demo_leap_env 30) (demo_reactor CatchUp)
               (demo_reactor CatchUp) 3 (demo_block_at 3 40) (demo_block_at 8 30)
               eq_refl eq_refl eq_refl eq_refl (fun _ => eq_refl)).
    reflexivity.
  - rewrite (catch_up_leap_start (demo_leap_env 40) (demo_reactor CatchUp)
               (demo_reactor CatchUp) 3 (demo_block_at 3 40) (demo_block_at 8 40)
               eq_refl eq_refl eq_refl eq_refl (fun _ => eq_refl)).
    reflexivity.
Defined.

End ReactorExtraRuns.
